(** * Steam Workshop Downloader: cache, download coordinator, loaders

    A shallow embedding of the core of the application (src/cache.py,
    src/download_manager.py, src/steam_api.py, src/worker.py) and the
    properties of its specification.

    Conventions of the embedding:
    - a Python [str] is a [string]; its characters are the code points
      0..255 (ASCII and the Latin-1 supplement), on which [isalnum],
      [isspace] and [lower] are Python's own tables;
    - a Python [dict] is a [gmap]; none of the modelled operations depends on
      the iteration order of a dict;
    - [time.time()] is an argument of the operation that reads the clock: a
      clock reading is an exact number (a [Z], in the unit of the TTLs);
    - a [pyqtSignal] emission of the manager or of a loader is an [event]
      appended to a log, newest last; an [int] argument of a signal is a C
      int; a signal of a download thread is queued for the event loop of
      the manager, where its slot runs ([DownloadManager.loop_exec]), and
      [DownloadManager.thread_step] is the turn of a thread whose signal
      is delivered at once;
    - the file system may refuse a write of the cache
      ([Cache.disk_write]); its other failures, which the code catches
      and prints, are left out;
    - the texts of the messages are the bytes of the source file. *)

From Stdlib Require Import ZArith Ascii String List Lia DecimalString Sorted.
From stdpp Require Import base tactics option list gmap fin_maps strings.

Local Open Scope Z_scope.

(** ** Python strings *)

Module PyStr.

Definition code (c : ascii) : N := N_of_ascii c.

Definition in_range (lo hi : N) (c : ascii) : bool :=
  ((lo <=? code c) && (code c <=? hi))%N.

(** [str.isalnum] on one character: alphabetic, decimal, digit or numeric
    in the Unicode database. *)
Definition isalnum (c : ascii) : bool :=
  in_range 48 57 c || in_range 65 90 c || in_range 97 122 c
  || (code c =? 170)%N || in_range 178 179 c || (code c =? 181)%N
  || in_range 185 186 c || in_range 188 190 c
  || in_range 192 214 c || in_range 216 246 c || in_range 248 255 c.

(** [str.isspace] on one character. *)
Definition isspace (c : ascii) : bool :=
  in_range 9 13 c || in_range 28 32 c || (code c =? 133)%N
  || (code c =? 160)%N.

(** [str.lower] on one character: A-Z and the Latin-1 capitals but the
    multiplication sign move up by 32. *)
Definition lower_char (c : ascii) : ascii :=
  if in_range 65 90 c || (in_range 192 222 c && negb (code c =? 215)%N)
  then ascii_of_N (code c + 32) else c.

Fixpoint lower (s : string) : string :=
  match s with
  | EmptyString => EmptyString
  | String c s' => String (lower_char c) (lower s')
  end.

(** [len(s)] *)
Definition len (s : string) : Z := Z.of_nat (String.length s).

Fixpoint filter (p : ascii -> bool) (s : string) : string :=
  match s with
  | EmptyString => EmptyString
  | String c s' => if p c then String c (filter p s') else filter p s'
  end.

Fixpoint lstrip (s : string) : string :=
  match s with
  | EmptyString => EmptyString
  | String c s' => if isspace c then lstrip s' else s
  end.

(** [s.rstrip()]: a character stays when it is not a space or when
    something stays after it. *)
Fixpoint rstrip (s : string) : string :=
  match s with
  | EmptyString => EmptyString
  | String c s' =>
      match rstrip s' with
      | EmptyString => if isspace c then EmptyString else String c EmptyString
      | r => String c r
      end
  end.

Definition strip (s : string) : string := rstrip (lstrip s).

(** [s[:n]] for n >= 0 *)
Fixpoint take (n : nat) (s : string) : string :=
  match n, s with
  | S n', String c s' => String c (take n' s')
  | _, _ => EmptyString
  end.

(** [s[n:]] for n >= 0 *)
Fixpoint drop (n : nat) (s : string) : string :=
  match n, s with
  | S n', String _ s' => drop n' s'
  | _, _ => s
  end.

(** [sub in s] *)
Fixpoint contains (sub s : string) : bool :=
  String.prefix sub s
  || match s with
     | EmptyString => false
     | String _ s' => contains sub s'
     end.

(** [s.rfind(sub)]: the highest index where [sub] starts, or -1. *)
Fixpoint rfind (sub s : string) : Z :=
  match s with
  | EmptyString => if String.prefix sub s then 0 else -1
  | String _ s' =>
      let i := rfind sub s' in
      if 0 <=? i then i + 1
      else if String.prefix sub s then 0 else -1
  end.

(** [s[i:]]: a negative index counts from the end. *)
Definition slice_from (i : Z) (s : string) : string :=
  if 0 <=? i then drop (Z.to_nat i) s
  else drop (Z.to_nat (len s + i)) s.

(** [s.replace(old, new)] for a non-empty [old]: occurrences are replaced
    from the left and do not overlap. [skip] counts the characters of an
    occurrence that are still to be passed over. *)
Fixpoint replace_from (old new : string) (skip : nat) (s : string) : string :=
  match s with
  | EmptyString => EmptyString
  | String c s' =>
      match skip with
      | S k => replace_from old new k s'
      | O =>
          if String.prefix old s
          then new +:+ replace_from old new (String.length old - 1) s'
          else String c (replace_from old new 0 s')
      end
  end.

(** With an empty [old] Python puts [new] before every character and at
    the end. *)
Fixpoint intersperse (new s : string) : string :=
  match s with
  | EmptyString => new
  | String c s' => new +:+ String c (intersperse new s')
  end.

Definition replace (old new s : string) : string :=
  match old with
  | EmptyString => intersperse new s
  | _ => replace_from old new 0 s
  end.

(** [s.endswith(suffix)] *)
Definition endswith (s suffix : string) : bool :=
  (String.length suffix <=? String.length s)%nat
  && String.eqb (drop (String.length s - String.length suffix) s) suffix.

End PyStr.

(** ** The TTL cache (src/cache.py) *)

Module Cache.

(** The name of the backing record of a key, and the key read back from a
    record name at start-up. *)
Definition _get_cache_filename (key : string) : string :=
  let safe_key :=
    PyStr.replace ":" "_" (PyStr.replace "\" "_" (PyStr.replace "/" "_" key)) in
  safe_key +:+ ".cache".

Definition _get_key_from_filename (filename : string) : string :=
  PyStr.replace "_" "/" (PyStr.replace ".cache" "" filename).

(** A key with none of the characters that the two functions rewrite. *)
Definition safe_key (key : string) : bool :=
  negb (PyStr.contains "_" key) && negb (PyStr.contains "\" key)
  && negb (PyStr.contains ":" key) && negb (PyStr.contains "." key).

(** A Python object held by the cache: [None] or any other value. *)
Inductive pyobj (V : Type) : Type :=
| PyNone
| PyVal (v : V).
Arguments PyNone {V}.
Arguments PyVal {V} v.

(** What a call of Python code ends in. *)
Inductive outcome (A : Type) : Type :=
| Returned (a : A)
| Raised (e : string).
Arguments Returned {A} a.
Arguments Raised {A} e.

(** [(data, timestamp, ttl)] *)
Abbreviation entry V := (pyobj V * Z * Z)%type.

(** What becomes of a write of [_save_to_disk], where every exception is
    caught and printed: [open] and [pickle.dump] succeed; [open] fails
    (a name that the file system does not take) and the directory is as
    before; or [pickle.dump] fails (a value that cannot be pickled) in the
    file that [open] has just emptied. *)
Inductive write_result : Type :=
| Written
| NotOpened
| Truncated.

Section WithValues.

Context {V : Type}.

(** [expired now e] is the test [time.time() - timestamp > ttl]. *)
Definition expired (now : Z) (e : entry V) : bool :=
  let '(_, timestamp, ttl) := e in bool_decide (now - timestamp > ttl).

Definition live (now : Z) (e : entry V) : bool := negb (expired now e).

(** The cache object with the part of the world it acts on: its default
    TTL, the dict [_memory_cache], the records of [cache_dir] that can be
    read back, by file name, and [disk_write], what the file system and
    [pickle] make of a record written under a file name. A file that
    cannot be unpickled is no record: the loader removes it, as [clear]
    and [_remove_from_disk] do. *)
Record t : Type := mk {
  default_ttl : Z;
  _memory_cache : gmap string (entry V);
  cache_dir : gmap string (entry V);
  disk_write : string -> entry V -> write_result
}.

(** An empty cache on an empty directory that takes every record. *)
Definition empty (default : Z) : t := mk default ∅ ∅ (fun _ _ => Written).

(** [_save_to_disk]: a failure is printed and not passed on. *)
Definition _save_to_disk (key : string) (e : entry V) (c : t) : t :=
  let filename := _get_cache_filename key in
  mk (default_ttl c) (_memory_cache c)
     (match disk_write c filename e with
      | Written => <[filename := e]> (cache_dir c)
      | NotOpened => cache_dir c
      | Truncated => base.delete filename (cache_dir c)
      end)
     (disk_write c).

Definition _remove_from_disk (key : string) (c : t) : t :=
  mk (default_ttl c) (_memory_cache c)
     (delete (_get_cache_filename key) (cache_dir c)) (disk_write c).

Definition del_memory (key : string) (c : t) : t :=
  mk (default_ttl c) (delete key (_memory_cache c)) (cache_dir c) (disk_write c).

(** [get]: [now] is the reading of the clock in the expiry test. *)
Definition get (now : Z) (key : string) (c : t) : pyobj V * t :=
  match _memory_cache c !! key with
  | None => (PyNone, c)
  | Some (data, timestamp, ttl) =>
      if expired now (data, timestamp, ttl)
      then (PyNone, _remove_from_disk key (del_memory key c))
      else (data, c)
  end.

(** [if ttl is None: ttl = self.default_ttl] *)
Definition ttl_or_default (ttl : option Z) (c : t) : Z :=
  match ttl with None => default_ttl c | Some x => x end.

(** [set]: [now] is the reading of the clock that becomes the
    timestamp; [ttl = None] is the default argument. *)
Definition set (now : Z) (key : string) (data : pyobj V)
    (ttl : option Z) (c : t) : t :=
  let ttl := ttl_or_default ttl c in
  let timestamp := now in
  _save_to_disk key (data, timestamp, ttl)
    (mk (default_ttl c) (<[key := (data, timestamp, ttl)]> (_memory_cache c))
        (cache_dir c) (disk_write c)).

Definition is_not_None (o : pyobj V) : bool :=
  match o with PyNone => false | PyVal _ => true end.

Definition has_key (now : Z) (key : string) (c : t) : bool * t :=
  let '(r, c') := get now key c in (is_not_None r, c').

(** [cleanup_expired]: the keys of the expired entries are collected,
    then each is deleted from the dict and from the directory. *)
Definition expired_keys (now : Z) (c : t) : list string :=
  (List.filter (fun kv => expired now (snd kv))
               (map_to_list (_memory_cache c))).*1.

Definition cleanup_expired (now : Z) (c : t) : nat * t :=
  let keys := expired_keys now c in
  (List.length keys,
   fold_left (fun c key => _remove_from_disk key (del_memory key c)) keys c).

(** [get_or_set]: the producer [factory_func] is any code; [W] is what
    it can read and change, and calling it is applying it to the
    current [W]. [now_get] and [now_set] are the two clock readings. *)
Definition get_or_set {W : Type} (now_get now_set : Z) (key : string)
    (factory_func : W -> outcome (pyobj V) * W) (ttl : option Z)
    (c : t) (w : W) : outcome (pyobj V) * t * W :=
  let '(cached_data, c) := get now_get key c in
  if is_not_None cached_data then (Returned cached_data, c, w)
  else
    let '(r, w) := factory_func w in
    match r with
    | Returned new_data =>
        (Returned new_data, set now_set key new_data ttl c, w)
    | Raised e => (Raised e, c, w)
    end.

(** A producer that also counts its invocations. *)
Definition counted {W A : Type} (f : W -> outcome A * W) (wn : W * nat)
    : outcome A * (W * nat) :=
  let '(r, w) := f wn.1 in (r, (w, S wn.2)).

(** [refresh_key]: the producer is called whatever the cache holds. *)
Definition refresh_key {W : Type} (now_set : Z) (key : string)
    (factory_func : W -> outcome (pyobj V) * W) (ttl : option Z)
    (c : t) (w : W) : outcome (pyobj V) * t * W :=
  let '(r, w) := factory_func w in
  match r with
  | Returned new_data => (Returned new_data, set now_set key new_data ttl c, w)
  | Raised e => (Raised e, c, w)
  end.

(** [clear]: the dict is emptied and every file of the directory whose
    name ends in [.cache] is removed. *)
Definition clear (c : t) : t :=
  mk (default_ttl c) ∅
     (filter (fun kv => PyStr.endswith kv.1 ".cache" = false) (cache_dir c))
     (disk_write c).

(** The dict of [get_stats], without the name of the directory. *)
Record stats : Type := mkStats {
  total_items : Z;
  active_items : Z;
  expired_items : Z;
  stats_default_ttl : Z
}.

Definition get_stats (now : Z) (c : t) : stats :=
  let total_items := Z.of_nat (size (_memory_cache c)) in
  let expired_items := Z.of_nat (length (expired_keys now c)) in
  mkStats total_items (total_items - expired_items) expired_items (default_ttl c).

(** One turn of the loop of [_load_from_disk], on the file [filename] with
    the clock reading [now]. A listed name with no record makes [open] or
    [pickle.load] fail: the error is printed, the file is removed if it is
    there, and no record is there afterwards either. *)
Definition load_file (c : t) (listed : string * Z) : t :=
  let '(filename, now) := listed in
  if PyStr.endswith filename ".cache"
  then
    match cache_dir c !! filename with
    | Some (data, timestamp, ttl) =>
        let key := _get_key_from_filename filename in
        if bool_decide (now - timestamp <= ttl)
        then mk (default_ttl c)
                (<[key := (data, timestamp, ttl)]> (_memory_cache c))
                (cache_dir c) (disk_write c)
        else mk (default_ttl c) (_memory_cache c)
                (base.delete filename (cache_dir c)) (disk_write c)
    | None => c
    end
  else c.

(** [_load_from_disk]: [listing] is what [os.listdir] returns, each name
    with the clock reading of its expiry test. *)
Definition _load_from_disk (listing : list (string * Z)) (c : t) : t :=
  fold_left load_file listing c.

(** The constructor on an existing directory, with what its file system
    makes of the writes to come: an empty dict, then the records of the
    directory. The sweeper thread it starts calls [cleanup_expired] from
    time to time. *)
Definition __init__ (default_ttl : Z) (directory : gmap string (entry V))
    (disk_write : string -> entry V -> write_result)
    (listing : list (string * Z)) : t :=
  _load_from_disk listing (mk default_ttl ∅ directory disk_write).

Definition delete (key : string) (c : t) : bool * t :=
  match _memory_cache c !! key with
  | Some _ => (true, _remove_from_disk key (del_memory key c))
  | None => (false, c)
  end.

(** [invalidate_pattern]: the keys that contain [pattern] are collected,
    then each is deleted. *)
Definition invalidate_pattern (pattern : string) (c : t) : nat * t :=
  let keys_to_delete :=
    List.filter (PyStr.contains pattern) (map_to_list (_memory_cache c)).*1 in
  (List.length keys_to_delete,
   fold_left (fun c key => (delete key c).2) keys_to_delete c).

End WithValues.

Arguments t V : clear implicits.

End Cache.

(** ** The download coordinator (src/download_manager.py) *)

Module DownloadManager.

(** [item_data]: a dict of text fields. *)
Abbreviation item := (gmap string string).

(** [os.path.join(a, b)] (POSIX) *)
Definition path_join (a b : string) : string :=
  if String.prefix "/" b then b
  else if (String.length a =? 0)%nat || String.eqb (PyStr.drop (String.length a - 1) a) "/"
       then a +:+ b
       else a +:+ "/" +:+ b.

Definition truthy (s : string) : bool := negb (String.length s =? 0)%nat.

Definition _get_download_url (item_data : item) : option string :=
  match item_data !! "file_url" with
  | Some file_url => if truthy file_url then Some file_url
      else match item_data !! "publishedfileid" with
           | Some published_file_id =>
               if truthy published_file_id
               then Some ("https://steamworkshopdownloader.io/download/" +:+ published_file_id)
               else None
           | None => None
           end
  | None =>
      match item_data !! "publishedfileid" with
      | Some published_file_id =>
          if truthy published_file_id
          then Some ("https://steamworkshopdownloader.io/download/" +:+ published_file_id)
          else None
      | None => None
      end
  end.

Definition title_char (c : ascii) : bool :=
  PyStr.isalnum c || Ascii.eqb c " " || Ascii.eqb c "-" || Ascii.eqb c "_".

Definition _generate_filename (item_data : item) : string :=
  let title := default "workshop_item"%string (item_data !! "title") in
  let safe_title := PyStr.rstrip (PyStr.filter title_char title) in
  let safe_title := PyStr.take 50 (PyStr.replace " " "_" safe_title) in
  let file_id := default "unknown"%string (item_data !! "publishedfileid") in
  let filename := default ""%string (item_data !! "filename") in
  let extension :=
    if truthy filename && PyStr.contains "." filename
    then PyStr.slice_from (PyStr.rfind "." filename) filename
    else ".zip"%string in
  safe_title +:+ "_" +:+ file_id +:+ extension.

(** A [DownloadThread]: the fields of the object, the local
    [downloaded_size] of [run], and whether [run] has returned. *)
Record DownloadThread : Type := mkThread {
  url : string;
  file_path : string;
  item_data : item;
  is_cancelled : bool;
  downloaded_size : Z;
  returned : bool
}.

(** An argument of a [pyqtSignal] declared [int] is a C int: a Python
    integer is passed on modulo 2^32, as a signed 32-bit value. *)
Definition int32 (z : Z) : Z := (z + 2 ^ 31) mod 2 ^ 32 - 2 ^ 31.

(** The signals of the manager. The percentage of [download_progress] and
    the signal [download_speed] are floating-point values of the wall
    clock and are left out. *)
Inductive event : Type :=
| download_started (path : string) (it : item)
| download_progress (path : string) (downloaded total : Z)
| download_finished (path final_path : string)
| download_error (path message : string)
| all_downloads_finished.

(** The manager with the part of the world it acts on: [files] maps the
    paths that exist to the number of bytes written. *)
Record t : Type := mk {
  active_downloads : gmap string DownloadThread;
  download_queue : list (item * string);
  max_concurrent_downloads : Z;
  files : gmap string Z;
  events : list event
}.

Definition init (max : Z) : t := mk ∅ [] max ∅ [].

Definition emit (e : event) (s : t) : t :=
  mk (active_downloads s) (download_queue s) (max_concurrent_downloads s)
     (files s) (events s ++ [e]).

Definition set_active (a : gmap string DownloadThread) (s : t) : t :=
  mk a (download_queue s) (max_concurrent_downloads s) (files s) (events s).

Definition set_queue (q : list (item * string)) (s : t) : t :=
  mk (active_downloads s) q (max_concurrent_downloads s) (files s) (events s).

Definition set_files (f : gmap string Z) (s : t) : t :=
  mk (active_downloads s) (download_queue s) (max_concurrent_downloads s)
     f (events s).

(** [len(self.active_downloads)] *)
Definition active_count (s : t) : Z := Z.of_nat (size (active_downloads s)).

Definition _start_download_thread (it : item) (download_url file_path : string)
    (s : t) : bool * t :=
  let download_thread := mkThread download_url file_path it false 0 false in
  let s := set_active (<[file_path := download_thread]> (active_downloads s)) s in
  (true, emit (download_started file_path it) s).

Definition start_download (it : item) (download_dir : string) (s : t) : bool * t :=
  match _get_download_url it with
  | None =>
      (false, emit (download_error "" "Не удалось получить ссылку для загрузки") s)
  | Some download_url =>
      let filename := _generate_filename it in
      let file_path := path_join download_dir filename in
      if bool_decide (file_path ∈ dom (active_downloads s))
      then (false, emit (download_error file_path "Файл уже загружается") s)
      else if bool_decide (active_count s >= max_concurrent_downloads s)
      then (true, set_queue (download_queue s ++ [(it, download_dir)]) s)
      else _start_download_thread it download_url file_path s
  end.

Definition _start_next_download (s : t) : t :=
  match download_queue s with
  | (it, download_dir) :: rest =>
      if bool_decide (active_count s < max_concurrent_downloads s)
      then (start_download it download_dir (set_queue rest s)).2
      else s
  | [] => s
  end.

Definition remove_active (file_path : string) (s : t) : t :=
  set_active (delete file_path (active_downloads s)) s.

Definition _on_download_finished (file_path final_path : string) (s : t) : t :=
  let s := remove_active file_path s in
  let s := emit (download_finished file_path final_path) s in
  let s := _start_next_download s in
  if bool_decide (active_downloads s = ∅) && bool_decide (download_queue s = [])
  then emit all_downloads_finished s
  else s.

Definition _on_download_error (file_path error_message : string) (s : t) : t :=
  let s := remove_active file_path s in
  let s := emit (download_error file_path error_message) s in
  _start_next_download s.

Definition cancel (th : DownloadThread) : DownloadThread :=
  mkThread (url th) (file_path th) (item_data th) true (downloaded_size th)
           (returned th).

Definition cancel_download (file_path : string) (s : t) : bool * t :=
  match active_downloads s !! file_path with
  | Some thread => (true, set_active (<[file_path := cancel thread]> (active_downloads s)) s)
  | None => (false, s)
  end.

Definition is_downloading (file_path : string) (s : t) : bool :=
  bool_decide (file_path ∈ dom (active_downloads s)).

(** *** [DownloadThread.run]

    What the network hands to the loop of [run]: the next chunk of the
    body, the end of the body, or a failure. [total] is the
    content-length of the response. *)
Inductive input : Type :=
| Chunk (size : Z)
| EndOfStream
| Failure (message : string).

Definition return_thread (th : DownloadThread) (downloaded : Z) : DownloadThread :=
  mkThread (url th) (file_path th) (item_data th) (is_cancelled th) downloaded true.

Definition progress_thread (th : DownloadThread) (downloaded : Z) : DownloadThread :=
  mkThread (url th) (file_path th) (item_data th) (is_cancelled th) downloaded
           (returned th).

Definition put_thread (key : string) (th : DownloadThread) (s : t) : t :=
  set_active (<[key := th]> (active_downloads s)) s.

(** [open(self.file_path, 'wb')]: the file exists and is empty. *)
Definition thread_open (key : string) (s : t) : t :=
  match active_downloads s !! key with
  | Some th =>
      if returned th then s else set_files (<[file_path th := 0]> (files s)) s
  | None => s
  end.

(** The signals of a [DownloadThread]; [speed_updated] is a value of the
    wall clock and is left out, as is the percentage of
    [progress_updated]. *)
Inductive signal : Type :=
| progress_updated (downloaded total : Z)
| thread_download_finished (file_path : string)
| thread_download_error (error_message : string).

(** One turn of [DownloadThread.run] for the thread registered under
    [key]: an iteration of the loop over the chunks, the code after the
    loop, or an exception handler; with the signal the turn emits, if any.
    [downloaded_size] is a Python integer; the two sizes of the progress
    signal are C ints. *)
Definition run_turn (key : string) (total : Z) (i : input) (s : t)
    : t * option signal :=
  match active_downloads s !! key with
  | None => (s, None)
  | Some th =>
      if returned th then (s, None)
      else
        match i with
        | Chunk n =>
            if is_cancelled th
            then
              let s := set_files (delete (file_path th) (files s)) s in
              (put_thread key (return_thread th (downloaded_size th)) s, None)
            else if bool_decide (n > 0)
            then
              let downloaded := downloaded_size th + n in
              let s := set_files (<[file_path th := downloaded]> (files s)) s in
              let s := put_thread key (progress_thread th downloaded) s in
              (s, Some (progress_updated (int32 downloaded) (int32 total)))
            else (s, None)
        | EndOfStream =>
            let s := put_thread key (return_thread th (downloaded_size th)) s in
            (s, if is_cancelled th then None
                else Some (thread_download_finished (file_path th)))
        | Failure message =>
            let s := put_thread key (return_thread th (downloaded_size th)) s in
            (s, if is_cancelled th then None
                else Some (thread_download_error message))
        end
  end.

(** The slots that [_start_download_thread] connects to the signals of the
    thread it registers under [file_path]. *)
Definition slot (file_path : string) (g : signal) (s : t) : t :=
  match g with
  | progress_updated d t => emit (download_progress file_path (int32 d) (int32 t)) s
  | thread_download_finished fp => _on_download_finished file_path fp s
  | thread_download_error err => _on_download_error file_path err s
  end.

(** A turn of a thread whose signal is delivered to its slot before
    anything else happens. *)
Definition thread_step (key : string) (total : Z) (i : input) (s : t) : t :=
  let '(s, g) := run_turn key total i s in
  match g with
  | Some g => slot key g s
  | None => s
  end.

(** The manager with the signals that wait in the event loop of its
    thread: a signal of a download thread is queued at its emission and
    its slot runs when the loop comes to it, oldest first. *)
Abbreviation looped := (t * list (string * signal))%type.

Inductive loop_step : Type :=
| Turn (key : string) (total : Z) (i : input)
| Opened (key : string)
| Deliver.

Definition post (key : string) (g : option signal)
    (waiting : list (string * signal)) : list (string * signal) :=
  match g with
  | Some g => waiting ++ [(key, g)]
  | None => waiting
  end.

Definition loop_exec (a : looped) (c : loop_step) : looped :=
  match c with
  | Turn key total i =>
      let '(s, g) := run_turn key total i a.1 in (s, post key g a.2)
  | Opened key => (thread_open key a.1, a.2)
  | Deliver =>
      match a.2 with
      | (key, g) :: waiting => (slot key g a.1, waiting)
      | [] => a
      end
  end.

(** *** Runs of the manager *)

(** The destination path that [start_download] computes for a request. *)
Definition dest (x : item * string) : string :=
  path_join x.2 (_generate_filename x.1).

Definition resolvable (x : item * string) : Prop :=
  is_Some (_get_download_url x.1).

(** [start_download] called on each request of a list in turn. *)
Definition starts (xs : list (item * string)) (s : t) : t :=
  fold_left (fun s x => (start_download x.1 x.2 s).2) xs s.

(** The paths of the [download_started] signals of a log, oldest first. *)
Definition started_paths (evs : list event) : list string :=
  omap (fun e => match e with download_started p _ => Some p | _ => None end) evs.

(** A download ends when its thread reaches the end of the body or fails. *)
Definition terminal (i : input) : Prop :=
  match i with Chunk _ => False | EndOfStream | Failure _ => True end.

(** The states of a manager with limit [M] after the requests [xs] have
    been made and the threads have taken any number of turns, in any order,
    with no cancellation and no further request. *)
Inductive reachable (xs : list (item * string)) (M : nat) : t -> Prop :=
| reach_starts : reachable xs M (starts xs (init (Z.of_nat M)))
| reach_open s key :
    reachable xs M s -> reachable xs M (thread_open key s)
| reach_step s key total i :
    reachable xs M s -> reachable xs M (thread_step key total i s).

(** No thread of the active set is cancelled or has returned. *)
Definition threads_running (a : gmap string DownloadThread) : Prop :=
  forall key th,
    a !! key = Some th -> is_cancelled th = false /\ returned th = false.

Definition all_running (s : t) : Prop := threads_running (active_downloads s).

(** The state of a manager with limit [M] that has been asked for the
    requests [done] and nothing else: the first [M] are active, the others
    wait in the order of their arrival. *)
Definition requested (done : list (item * string)) (M : nat) (s : t) : Prop :=
  max_concurrent_downloads s = Z.of_nat M
  /\ dom (active_downloads s) = list_to_set (dest <$> take M done)
  /\ size (active_downloads s) = Nat.min M (length done)
  /\ download_queue s = drop M done
  /\ all_running s
  /\ started_paths (events s) = dest <$> take M done.

(** The state of a manager with limit [M] in which the first [j] of the
    requests [xs] have been started, in their order, and the others wait. *)
Definition started_upto (xs : list (item * string)) (M j : nat) (s : t) : Prop :=
  max_concurrent_downloads s = Z.of_nat M
  /\ download_queue s = drop j xs
  /\ dom (active_downloads s) ⊆ list_to_set (dest <$> take j xs)
  /\ (j < length xs -> size (active_downloads s) = M)%nat
  /\ all_running s
  /\ started_paths (events s) = dest <$> take j xs.

(** What a download that ends does to the queue. *)
Definition advanced (xs : list (item * string)) (M j : nat) (s s' : t) : Prop :=
  match download_queue s with
  | [] =>
      download_queue s' = []
      /\ started_paths (events s') = started_paths (events s)
      /\ started_upto xs M j s'
  | x :: rest =>
      download_queue s' = rest
      /\ started_paths (events s') = started_paths (events s) ++ [dest x]
      /\ dest x ∈ dom (active_downloads s')
      /\ size (active_downloads s') = M
      /\ started_upto xs M (S j) s'
  end.

(** *** The other operations of the manager *)

(** [cancel_all_downloads]: every active thread is flagged and the queue is
    emptied. *)
Definition cancel_all_downloads (s : t) : t :=
  set_queue [] (set_active (cancel <$> active_downloads s) s).

(** The loop of [set_max_concurrent_downloads]; every turn takes a request
    off the queue, so [fuel] is the length of the queue. *)
Fixpoint start_queued (fuel : nat) (s : t) : t :=
  match fuel with
  | O => s
  | S fuel =>
      if bool_decide (active_count s < max_concurrent_downloads s)
         && negb (bool_decide (download_queue s = []))
      then start_queued fuel (_start_next_download s)
      else s
  end.

Definition set_max_concurrent_downloads (max_downloads : Z) (s : t) : t :=
  if bool_decide (max_downloads > 0)
  then
    let s := mk (active_downloads s) (download_queue s) max_downloads
                (files s) (events s) in
    start_queued (length (download_queue s)) s
  else s.

(** [clear_completed_downloads]: the paths of the threads that have
    finished are collected, then each is removed from the active set. *)
Definition clear_completed_downloads (s : t) : t :=
  let completed_threads :=
    (List.filter (fun kv => returned kv.2) (map_to_list (active_downloads s))).*1 in
  fold_left (fun s file_path => remove_active file_path s) completed_threads s.

(** A call of the manager, or a turn of a thread with the delivery of its
    signal. *)
Inductive call : Type :=
| StartDownload (it : item) (download_dir : string)
| CancelDownload (file_path : string)
| CancelAllDownloads
| ClearCompletedDownloads
| ThreadOpen (key : string)
| ThreadStep (key : string) (total : Z) (i : input).

Definition exec (s : t) (c : call) : t :=
  match c with
  | StartDownload it download_dir => (start_download it download_dir s).2
  | CancelDownload file_path => (cancel_download file_path s).2
  | CancelAllDownloads => cancel_all_downloads s
  | ClearCompletedDownloads => clear_completed_downloads s
  | ThreadOpen key => thread_open key s
  | ThreadStep key total i => thread_step key total i s
  end.

(** The body arrives in the chunks of the list, with no other turn in
    between. *)
Definition run_chunks (key : string) (total : Z) (chunks : list Z) (s : t) : t :=
  fold_left (fun s n => thread_step key total (Chunk n) s) chunks s.

(** The sizes [downloaded_size] goes through, from [from], on these
    chunks: an empty chunk is passed over. *)
Fixpoint running_sizes (from : Z) (chunks : list Z) : list Z :=
  match chunks with
  | [] => []
  | n :: chunks =>
      if bool_decide (n > 0)
      then (from + n) :: running_sizes (from + n) chunks
      else running_sizes from chunks
  end.

(** The bytes written after these chunks, from [from]. *)
Definition written (from : Z) (chunks : list Z) : Z :=
  fold_left (fun d n => if bool_decide (n > 0) then d + n else d) chunks from.

(** Every character is alphanumeric, a dash or an underscore. *)
Definition clean_char (c : ascii) : bool :=
  PyStr.isalnum c || Ascii.eqb c "-" || Ascii.eqb c "_".

(** *** The scenario of the specification *)

(** The characters that the scenario wants out of a file name. *)
Definition forbidden (c : ascii) : bool :=
  existsb (Ascii.eqb c) (list_ascii_of_string "<>:/\|?*").

Definition scenario_title : string := "Mod: <Test>/Name".

Definition scenario_item : item :=
  <["title" := scenario_title]> (<["publishedfileid" := "42"%string]> ∅).

(** Three other workshop items. *)
Definition demo_item (n : string) : item :=
  <["title" := ("Map " +:+ n)%string]> (<["publishedfileid" := n]> ∅).

(** Four requests for one directory. *)
Definition demo_requests : list (item * string) :=
  [(demo_item "1", "/dl"); (demo_item "2", "/dl"); (demo_item "3", "/dl");
   (scenario_item, "/dl")]%string.

End DownloadManager.

(** ** The static catalog and its search (src/steam_api.py) *)

Module SteamAPI.

(** A game of the catalog: a dict with the keys [appid] and [name]. *)
Record game : Type := mkGame { appid : Z; name : string }.

Definition popular_games : list game := [
  mkGame 730 "Counter-Strike: Global Offensive";
  mkGame 570 "Dota 2";
  mkGame 440 "Team Fortress 2";
  mkGame 4000 "Garry's Mod";
  mkGame 252490 "Rust";
  mkGame 304930 "Unturned";
  mkGame 431960 "Wallpaper Engine";
  mkGame 294100 "RimWorld";
  mkGame 255710 "Cities: Skylines";
  mkGame 108600 "Project Zomboid";
  mkGame 211820 "Starbound";
  mkGame 105600 "Terraria";
  mkGame 72850 "The Elder Scrolls V: Skyrim";
  mkGame 489830 "The Elder Scrolls V: Skyrim Special Edition";
  mkGame 1085660 "Destiny 2";
  mkGame 271590 "Grand Theft Auto V";
  mkGame 346110 "ARK: Survival Evolved";
  mkGame 322330 "Don't Starve Together";
  mkGame 230410 "Warframe";
  mkGame 582010 "Monster Hunter: World";
  mkGame 1172470 "Apex Legends";
  mkGame 359550 "Tom Clancy's Rainbow Six Siege";
  mkGame 292030 "The Witcher 3: Wild Hunt";
  mkGame 1174180 "Red Dead Redemption 2";
  mkGame 413150 "Stardew Valley";
  mkGame 367520 "Hollow Knight";
  mkGame 381210 "Dead by Daylight";
  mkGame 236430 "A Hat in Time";
  mkGame 418370 "Subnautica";
  mkGame 774281 "Subnautica: Below Zero";
  mkGame 892970 "Valheim";
  mkGame 945360 "Among Us";
  mkGame 1203220 "NARAKA: BLADEPOINT";
  mkGame 1172620 "Sea of Thieves";
  mkGame 1091500 "Cyberpunk 2077";
  mkGame 1245620 "ELDEN RING";
  mkGame 1086940 "Baldur's Gate 3";
  mkGame 1517290 "Battlefield 2042";
  mkGame 1599340 "Call of Duty: Modern Warfare II";
  mkGame 1938090 "Call of Duty: Modern Warfare III";
  mkGame 1966720 "Hogwarts Legacy";
  mkGame 1817070 "Marvel's Spider-Man Remastered";
  mkGame 1888930 "Marvel's Spider-Man: Miles Morales";
  mkGame 1623730 "Palworld";
  mkGame 1868140 "DAVE THE DIVER";
  mkGame 1449850 "Yu-Gi-Oh! Master Duel";
  mkGame 1593500 "God of War";
  mkGame 1817190 "Marvel's Guardians of the Galaxy";
  mkGame 1237970 "Titanfall 2";
  mkGame 1174370 "Phasmophobia"
].

(** [query_lower in game['name'].lower()] *)
Definition name_matches (query_lower : string) (g : game) : bool :=
  PyStr.contains query_lower (PyStr.lower (name g)).

(** The loop of [search_games] over the games left, with its [break]. *)
Fixpoint search_loop (query_lower : string) (limit : Z) (games results : list game)
    : list game :=
  match games with
  | [] => results
  | g :: games =>
      if name_matches query_lower g
      then
        let results := results ++ [g] in
        if bool_decide (Z.of_nat (length results) >= limit) then results
        else search_loop query_lower limit games results
      else search_loop query_lower limit games results
  end.

Definition search_games (query : string) (limit : Z) : list game :=
  let query_lower := PyStr.lower query in
  search_loop query_lower limit popular_games [].

(** [l[:limit]] and [l[start:]]: a negative index counts from the end. *)
Definition slice_to {A : Type} (limit : Z) (l : list A) : list A :=
  if 0 <=? limit then take (Z.to_nat limit) l
  else take (Z.to_nat (Z.of_nat (length l) + limit)) l.

Definition slice_from {A : Type} (start : Z) (l : list A) : list A :=
  if 0 <=? start then drop (Z.to_nat start) l
  else drop (Z.to_nat (Z.of_nat (length l) + start)) l.

Definition get_popular_games (limit : Z) : list game :=
  slice_to limit popular_games.

(** The dict of [get_app_info]. *)
Record app_info : Type := mkInfo {
  info_appid : Z;
  info_name : string;
  has_workshop : bool;
  workshop_enabled : bool
}.

(** The loop of [get_app_info] over the catalog. *)
Fixpoint find_app (app_id : Z) (games : list game) : option game :=
  match games with
  | [] => None
  | g :: games => if bool_decide (appid g = app_id) then Some g else find_app app_id games
  end.

(** [str(n)] for an integer. *)
Definition str (n : Z) : string := NilZero.string_of_int (Z.to_int n).

Definition get_app_info (app_id : Z) : app_info :=
  match find_app app_id popular_games with
  | Some g => mkInfo app_id (name g) true true
  | None => mkInfo app_id ("Game " +:+ str app_id) true true
  end.

(** [download_workshop_item]: a missing id is formatted as [None]. *)
Definition download_workshop_item (item_data : gmap string string) : string :=
  let file_url := default ""%string (item_data !! "file_url") in
  if negb (String.length file_url =? 0)%nat then file_url
  else
    let published_file_id := default "None"%string (item_data !! "publishedfileid") in
    "https://steamworkshopdownloader.io/download/" +:+ published_file_id.

End SteamAPI.

(** ** The search loader (src/worker.py, [SearchThread]) *)

Module SearchThread.

Import SteamAPI.

(** The signals of the thread. *)
Inductive event : Type :=
| search_results (results : list game)
| search_error (message : string).

(** What a run leaves behind: the signals emitted, the calls of
    [search_games] made (query and limit), and the cache. *)
Record trace : Type := mkTrace {
  emitted : list event;
  fetches : list (string * Z);
  cache : Cache.t (list game)
}.

(** The truth value of a cached result: [None] and the empty list are
    false. *)
Definition truthy (o : Cache.pyobj (list game)) : bool :=
  match o with
  | Cache.PyNone => false
  | Cache.PyVal [] => false
  | Cache.PyVal (_ :: _) => true
  end.

(** [run]: [cancelled1], [cancelled2] and [cancelled3] are the values of
    [is_cancelled] at the three places where it is read; [now_get] and
    [now_set] are the clock readings of the cache. *)
Definition run (query : string) (cancelled1 cancelled2 cancelled3 : bool)
    (now_get now_set : Z) (c : Cache.t (list game)) : trace :=
  if bool_decide (PyStr.len (PyStr.strip query) < 2)
  then mkTrace [search_results []] [] c
  else
    let cache_key := ("search_games_" +:+ PyStr.lower query)%string in
    let '(cached_results, c) := Cache.get now_get cache_key c in
    if truthy cached_results && negb cancelled1
    then
      match cached_results with
      | Cache.PyVal results => mkTrace [search_results results] [] c
      | Cache.PyNone => mkTrace [] [] c
      end
    else if negb cancelled2
    then
      let results := search_games query 20 in
      if negb cancelled3
      then mkTrace [search_results results] [(query, 20)]
                   (Cache.set now_set cache_key (Cache.PyVal results) (Some 900) c)
      else mkTrace [] [(query, 20)] c
    else mkTrace [] [] c.

End SearchThread.

(** ** The game loaders (src/worker.py) *)

Module GameLoaderThread.

Import SteamAPI.

(** The signals of the thread. *)
Inductive event : Type :=
| games_loaded (games : list game)
| loading_progress (message : string)
| loading_error (message : string).

(** What a run leaves behind: the signals emitted, the limits of the calls
    of [get_popular_games], and the cache. *)
Record trace : Type := mkTrace {
  emitted : list event;
  fetches : list Z;
  cache : Cache.t (list game)
}.

(** The truth value of a cached list. *)
Definition truthy (o : Cache.pyobj (list game)) : bool :=
  match o with
  | Cache.PyNone => false
  | Cache.PyVal [] => false
  | Cache.PyVal (_ :: _) => true
  end.

(** [_load_additional_games], entered with the signals [evs] emitted and
    the calls [fs] made: [cancelled4] and [cancelled5] are its two readings
    of [is_cancelled], [now] the clock reading of its [set]. *)
Definition _load_additional_games (cancelled4 cancelled5 : bool) (now : Z)
    (evs : list event) (fs : list Z) (c : Cache.t (list game)) : trace :=
  if cancelled4 then mkTrace evs fs c
  else
    let all_games := get_popular_games 200 in
    let fs := fs ++ [200] in
    if negb cancelled5 && bool_decide (Z.of_nat (length all_games) > 50)
    then mkTrace (evs ++ [games_loaded all_games]) fs
                 (Cache.set now "all_games_list" (Cache.PyVal all_games) (Some 7200) c)
    else mkTrace evs fs c.

(** [run]: [cancelled1] to [cancelled5] are the values of [is_cancelled]
    at the places where it is read; [now_get], [now_set] and [now_set2]
    are the clock readings of the cache. *)
Definition run (cancelled1 cancelled2 cancelled3 cancelled4 cancelled5 : bool)
    (now_get now_set now_set2 : Z) (c : Cache.t (list game)) : trace :=
  let evs := [loading_progress "Загрузка популярных игр..."] in
  let cache_key := "popular_games_list"%string in
  let '(cached_games, c) := Cache.get now_get cache_key c in
  if truthy cached_games && negb cancelled1
  then
    match cached_games with
    | Cache.PyVal games =>
        mkTrace (evs ++ [loading_progress "Загрузка из кэша..."; games_loaded games]) [] c
    | Cache.PyNone => mkTrace evs [] c
    end
  else if negb cancelled2
  then
    let evs := evs ++ [loading_progress "Получение данных из Steam API..."] in
    let games := get_popular_games 50 in
    if negb cancelled3
    then
      let c := Cache.set now_set cache_key (Cache.PyVal games) (Some 3600) c in
      let evs := evs ++ [loading_progress "Загрузка завершена"; games_loaded games] in
      _load_additional_games cancelled4 cancelled5 now_set2 evs [50] c
    else mkTrace evs [50] c
  else mkTrace evs [] c.

(** The lists that the signals [games_loaded] of a log carry. *)
Definition loaded (evs : list event) : list (list game) :=
  omap (fun e => match e with games_loaded g => Some g | _ => None end) evs.

End GameLoaderThread.

Module LazyGameLoaderThread.

Import SteamAPI.

Inductive event : Type :=
| additional_games_loaded (games : list game)
| loading_progress (message : string).

(** The loop over the batches: [cancelled read] is the value of
    [is_cancelled] at its reading number [read]. Every turn takes
    [batch_size >= 1] games off the list, so [fuel] is its length. *)
Fixpoint batch_loop (fuel : nat) (batch_size : nat) (additional_games : list game)
    (cancelled : nat -> bool) (read : nat) : list event :=
  match fuel with
  | O => []
  | S fuel =>
      match additional_games with
      | [] => []
      | _ :: _ =>
          if cancelled read then []
          else additional_games_loaded (take batch_size additional_games)
               :: batch_loop fuel batch_size (drop batch_size additional_games)
                    cancelled (S read)
      end
  end.

(** [run]: with [batch_size = 0] the [range] of the loop raises and the
    handler prints the error; with [batch_size < 0] the range is empty. *)
Definition run (start_index batch_size : Z) (cancelled : nat -> bool) : list event :=
  if cancelled 0%nat then []
  else
    let evs := [loading_progress "Загрузка дополнительных игр..."] in
    let all_games := get_popular_games 200 in
    if negb (cancelled 1%nat) && bool_decide (Z.of_nat (length all_games) > start_index)
    then
      let additional_games := slice_from start_index all_games in
      if bool_decide (batch_size = 0) then evs
      else if bool_decide (batch_size < 0)
      then evs ++ [loading_progress "Фоновая загрузка завершена"]
      else
        evs
        ++ batch_loop (length additional_games) (Z.to_nat batch_size)
                      additional_games cancelled 2
        ++ [loading_progress "Фоновая загрузка завершена"]
    else evs.

(** The games that the signals [additional_games_loaded] of a log carry. *)
Definition batches (evs : list event) : list (list game) :=
  omap (fun e => match e with additional_games_loaded g => Some g | _ => None end) evs.

End LazyGameLoaderThread.

(** * Properties *)

(** ** Python strings: checks of the string operations *)

Example replace_overlap : PyStr.replace "aa" "b" "aaaaa" = "bba"%string.
Proof. reflexivity. Qed.

Example replace_empty : PyStr.replace "" "-" "abc" = "-a-b-c-"%string.
Proof. reflexivity. Qed.

Example rstrip_inner : PyStr.rstrip " a b  " = " a b"%string.
Proof. reflexivity. Qed.

Example rfind_last : PyStr.rfind "." "a.b.c" = 3.
Proof. reflexivity. Qed.

Example rfind_none : PyStr.rfind "." "abc" = -1.
Proof. reflexivity. Qed.

Example slice_from_dot : PyStr.slice_from 3 "a.b.c" = ".c"%string.
Proof. reflexivity. Qed.

(** ** The cache *)

Section CacheFacts.

Context {V : Type}.
Implicit Types (c : Cache.t V) (m : gmap string (Cache.entry V)) (e : Cache.entry V).

Lemma expired_true now (d : Cache.pyobj V) ts ttl :
  Cache.expired now (d, ts, ttl) = true <-> now - ts > ttl.
Proof. unfold Cache.expired. apply bool_decide_eq_true. Qed.

Lemma expired_false now (d : Cache.pyobj V) ts ttl :
  Cache.expired now (d, ts, ttl) = false <-> now - ts <= ttl.
Proof. unfold Cache.expired. rewrite bool_decide_eq_false. lia. Qed.

Lemma live_iff now (d : Cache.pyobj V) ts ttl :
  Cache.live now (d, ts, ttl) = true <-> now - ts <= ttl.
Proof.
  unfold Cache.live. rewrite negb_true_iff. apply expired_false.
Qed.

(** [get] on a key that is not in the dict. *)
Lemma get_absent now k c :
  Cache._memory_cache c !! k = None -> Cache.get now k c = (Cache.PyNone, c).
Proof. intros H. unfold Cache.get. by rewrite H. Qed.

(** [get] on a live entry returns its data and changes nothing. *)
Lemma get_live now k c d ts ttl :
  Cache._memory_cache c !! k = Some (d, ts, ttl) -> now - ts <= ttl ->
  Cache.get now k c = (d, c).
Proof.
  intros H Hl. unfold Cache.get. rewrite H.
  by rewrite (proj2 (expired_false now d ts ttl) Hl).
Qed.

(** [get] on an expired entry returns [None] and evicts the entry. *)
Lemma get_expired now k c d ts ttl :
  Cache._memory_cache c !! k = Some (d, ts, ttl) -> now - ts > ttl ->
  Cache.get now k c
  = (Cache.PyNone, Cache._remove_from_disk k (Cache.del_memory k c)).
Proof.
  intros H Hl. unfold Cache.get. rewrite H.
  by rewrite (proj2 (expired_true now d ts ttl) Hl).
Qed.

Lemma set_lookup now k d ttl c :
  Cache._memory_cache (Cache.set now k d ttl c) !! k
  = Some (d, now, Cache.ttl_or_default ttl c).
Proof. unfold Cache.set. simpl. apply lookup_insert_eq. Qed.

Lemma set_lookup_ne now k k' d ttl c :
  k <> k' ->
  Cache._memory_cache (Cache.set now k d ttl c) !! k' = Cache._memory_cache c !! k'.
Proof. intros H. unfold Cache.set. simpl. by apply lookup_insert_ne. Qed.

(** A stored [None] reads as [None] whatever the clock says. *)
Lemma get_stored_None now k c ts ttl :
  Cache._memory_cache c !! k = Some (Cache.PyNone, ts, ttl) ->
  (Cache.get now k c).1 = Cache.PyNone.
Proof.
  intros H. unfold Cache.get. rewrite H.
  by destruct (Cache.expired now _).
Qed.

(** *** [cleanup_expired] *)

Lemma cleanup_memory ks c :
  Cache._memory_cache
    (fold_left (fun c key => Cache._remove_from_disk key (Cache.del_memory key c)) ks c)
  = fold_left (fun m k => delete k m) ks (Cache._memory_cache c).
Proof.
  revert c. induction ks as [|k ks IH]; intros c; simpl; [done|].
  by rewrite IH.
Qed.

Lemma delete_keys_lookup ks m j :
  fold_left (fun m k => delete k m) ks m !! j
  = if decide (j ∈ ks) then None else m !! j.
Proof.
  revert m. induction ks as [|k ks IH]; intros m.
  - destruct (decide (j ∈ [])) as [H|H]; [by apply elem_of_nil in H|done].
  - cbn [fold_left]. rewrite IH.
    destruct (decide (j ∈ ks)) as [H|H], (decide (j ∈ k :: ks)) as [H'|H'];
      try done.
    + exfalso. apply H'. by right.
    + apply elem_of_cons in H' as [->|H']; [apply lookup_delete_eq|done].
    + apply lookup_delete_ne. intros ->. apply H'. by left.
Qed.

Lemma delete_keys_size ks m :
  NoDup ks -> (forall k, k ∈ ks -> is_Some (m !! k)) ->
  (size (fold_left (fun m k => delete k m) ks m) + length ks)%nat = size m.
Proof.
  revert m. induction ks as [|k ks IH]; intros m Hnd Hin; simpl; [lia|].
  apply NoDup_cons in Hnd as [Hk Hnd].
  destruct (Hin k) as [x Hx]; [by left|].
  assert (Hs : size (delete k m) = Nat.pred (size m))
    by (eapply map_size_delete_Some; eauto).
  assert (size m <> 0%nat) by (apply map_size_ne_0_lookup; eauto).
  specialize (IH (delete k m) Hnd). rewrite Hs in IH.
  assert (forall k', k' ∈ ks -> is_Some (delete k m !! k')) as Hin'.
  { intros k' Hk'. rewrite lookup_delete_ne by (intros ->; done).
    apply Hin. by right. }
  specialize (IH Hin'). lia.
Qed.

Lemma elem_of_expired_keys now c k :
  k ∈ Cache.expired_keys now c <->
  exists e, Cache._memory_cache c !! k = Some e /\ Cache.expired now e = true.
Proof.
  unfold Cache.expired_keys. rewrite list_elem_of_fmap. split.
  - intros [[k' e] [-> Hin]]. apply list_elem_of_In, filter_In in Hin as [Hin He].
    apply list_elem_of_In, elem_of_map_to_list in Hin. eauto.
  - intros [e [Hk He]]. exists (k, e). split; [done|].
    apply list_elem_of_In, filter_In. split; [|done].
    by apply list_elem_of_In, elem_of_map_to_list.
Qed.

Lemma NoDup_expired_keys now c : NoDup (Cache.expired_keys now c).
Proof.
  unfold Cache.expired_keys.
  pose proof (NoDup_fst_map_to_list (Cache._memory_cache c)) as H.
  induction (map_to_list (Cache._memory_cache c)) as [|[k e] l IH]; simpl; [constructor|].
  simpl in H. apply NoDup_cons in H as [Hk H].
  destruct (Cache.expired now e); simpl; [|by apply IH].
  apply NoDup_cons. split; [|by apply IH].
  intros Hin. apply Hk. apply list_elem_of_fmap in Hin as [[k' e'] [-> Hin]].
  apply list_elem_of_fmap. exists (k', e'). split; [done|].
  apply list_elem_of_In. apply list_elem_of_In, filter_In in Hin. tauto.
Qed.

(** C6. [cleanup_expired] removes exactly the entries whose age exceeds
    their TTL at the clock reading of the call, leaves every other entry as
    it was, and returns the number of entries it removed. *)
Theorem cleanup_expired_exact now c :
  let r := Cache.cleanup_expired now c in
  (forall k,
     Cache._memory_cache r.2 !! k
     = match Cache._memory_cache c !! k with
       | Some e => if Cache.expired now e then None else Some e
       | None => None
       end)
  /\ (size (Cache._memory_cache r.2) + r.1)%nat = size (Cache._memory_cache c)
  /\ Cache.default_ttl r.2 = Cache.default_ttl c.
Proof.
  unfold Cache.cleanup_expired. cbn [fst snd]. repeat split.
  - intros k. rewrite cleanup_memory, delete_keys_lookup.
    destruct (decide (k ∈ Cache.expired_keys now c)) as [Hin|Hin].
    + apply elem_of_expired_keys in Hin as [e [-> ->]]. done.
    + destruct (Cache._memory_cache c !! k) as [e|] eqn:Hk; [|done].
      destruct (Cache.expired now e) eqn:He; [|done].
      exfalso. apply Hin, elem_of_expired_keys. eauto.
  - rewrite cleanup_memory. apply delete_keys_size.
    + apply NoDup_expired_keys.
    + intros k Hin. apply elem_of_expired_keys in Hin as [e [-> _]]. eauto.
  - generalize (Cache.expired_keys now c). intros ks. revert c.
    induction ks as [|k ks IH]; intros c; simpl; [done|]. by rewrite IH.
Qed.

(** C5, as amended. For every TTL [t]: a [get] at a clock reading at most
    [t] after that of the [set] returns the value, and for [t >= 0] the
    reading of the [set] itself is such a reading; a [get] more than [t]
    after the [set] returns [None]; and an entry is live exactly when
    [now - created_at <= ttl]. *)
Theorem set_then_get_within_ttl now k (v : Cache.pyobj V) t c :
  (0 <= t -> (Cache.get now k (Cache.set now k v (Some t) c)).1 = v)
  /\ (forall now', now' - now <= t ->
        (Cache.get now' k (Cache.set now k v (Some t) c)).1 = v)
  /\ (forall now', now' - now > t ->
        (Cache.get now' k (Cache.set now k v (Some t) c)).1 = Cache.PyNone)
  /\ (forall now' c' d ts ttl,
        Cache._memory_cache c' !! k = Some (d, ts, ttl) ->
        (Cache.live now' (d, ts, ttl) = true <-> now' - ts <= ttl)
        /\ (Cache.get now' k c').1
           = if Cache.live now' (d, ts, ttl) then d else Cache.PyNone).
Proof.
  pose proof (set_lookup now k v (Some t) c) as Hs. cbn in Hs.
  split_and!.
  - intros Ht. erewrite get_live; eauto. lia.
  - intros now' Hn. erewrite get_live; eauto.
  - intros now' Hn. erewrite get_expired; eauto.
  - intros now' c' d ts ttl H. split; [apply live_iff|].
    unfold Cache.get, Cache.live. rewrite H.
    by destruct (Cache.expired now' (d, ts, ttl)).
Qed.

(** C10. A stored [None] cannot be told from absence: after
    [set(k, None, t)] the entry is in the dict, yet [get] returns [None],
    [has_key] is false, and [get_or_set] invokes its producer. *)
Theorem stored_None_reads_as_absent {W : Type} now k ttl c :
  let c1 := Cache.set now k Cache.PyNone ttl c in
  Cache._memory_cache c1 !! k
    = Some (Cache.PyNone, now, Cache.ttl_or_default ttl c)
  /\ (forall now', (Cache.get now' k c1).1 = Cache.PyNone)
  /\ (forall now', (Cache.has_key now' k c1).1 = false)
  /\ (forall now_get now_set ttl' (p : W -> Cache.outcome (Cache.pyobj V) * W) w,
        (Cache.get_or_set now_get now_set k (Cache.counted p) ttl' c1 (w, 0%nat)).2
        = ((p w).2, 1%nat)).
Proof.
  intros c1. pose proof (set_lookup now k Cache.PyNone ttl c) as Hs.
  fold c1 in Hs. repeat split.
  - done.
  - intros now'. eapply get_stored_None; eauto.
  - intros now'. unfold Cache.has_key.
    pose proof (get_stored_None now' k c1 _ _ Hs) as Hg.
    destruct (Cache.get now' k c1) as [r c']. cbn in Hg. by subst r.
  - intros now_get now_set ttl' p w. unfold Cache.get_or_set.
    pose proof (get_stored_None now_get k c1 _ _ Hs) as Hg.
    destruct (Cache.get now_get k c1) as [r c']. cbn in Hg. subst r. cbn.
    unfold Cache.counted. cbn. destruct (p w) as [[d|e] w']; done.
Qed.

(** C9. On a miss [get_or_set] invokes the producer exactly once, stores
    what it returns under the key and returns it (an exception of the
    producer is passed on); on a hit it returns the cached value and the
    producer is not invoked. A hit is a [get] that returns a value other
    than [None]. *)
Theorem get_or_set_invokes_once {W : Type} now_get now_set k
    (p : W -> Cache.outcome (Cache.pyobj V) * W) ttl c w :
  let r := Cache.get_or_set now_get now_set k (Cache.counted p) ttl c (w, 0%nat) in
  match (Cache.get now_get k c).1 with
  | Cache.PyVal v => r = (Cache.Returned (Cache.PyVal v), c, (w, 0%nat))
  | Cache.PyNone =>
      r.2 = ((p w).2, 1%nat)
      /\ match (p w).1 with
         | Cache.Returned d =>
             r.1.1 = Cache.Returned d
             /\ Cache._memory_cache r.1.2 !! k
                = Some (d, now_set, Cache.ttl_or_default ttl c)
         | Cache.Raised e =>
             r.1.1 = Cache.Raised e /\ r.1.2 = (Cache.get now_get k c).2
         end
  end.
Proof.
  intros r. subst r. unfold Cache.get_or_set.
  assert (Hd : Cache.default_ttl (Cache.get now_get k c).2 = Cache.default_ttl c).
  { unfold Cache.get. destruct (Cache._memory_cache c !! k) as [[[d ts] tl]|]; [|done].
    by destruct (Cache.expired now_get (d, ts, tl)). }
  assert (Hhit : forall v, (Cache.get now_get k c).1 = Cache.PyVal v ->
                           (Cache.get now_get k c).2 = c).
  { intros v. unfold Cache.get.
    destruct (Cache._memory_cache c !! k) as [[[d ts] tl]|]; [|done].
    by destruct (Cache.expired now_get (d, ts, tl)). }
  destruct (Cache.get now_get k c) as [[|v] c'] eqn:Hg; cbn in *.
  - unfold Cache.counted. cbn. destruct (p w) as [[d|e] w']; cbn.
    + split; [done|]. split; [done|]. rewrite lookup_insert_eq.
      unfold Cache.ttl_or_default. by rewrite Hd.
    + done.
  - by rewrite (Hhit v eq_refl).
Qed.

End CacheFacts.

(** C1. The record name of a key does not give the key back, and two keys
    can share a record name: the key [popular_games_list] of the game
    loader is read back as [popular/games/list], and the keys [a/b] and
    [a:b] are both stored in [a_b.cache]. *)
Theorem cache_filename_not_reversible :
  Cache._get_key_from_filename (Cache._get_cache_filename "popular_games_list")
    = "popular/games/list"%string
  /\ Cache._get_cache_filename "a/b" = "a_b.cache"%string
  /\ Cache._get_cache_filename "a:b" = "a_b.cache"%string
  /\ Cache._get_key_from_filename (Cache._get_cache_filename "a:b") = "a/b"%string.
Proof. repeat split. Qed.

(** C5, the claim as stated fails for a negative TTL: the entry is expired
    at the clock reading of its own [set]. *)
Lemma set_then_get_negative_ttl :
  (Cache.get 100 "k" (Cache.set 100 "k" (Cache.PyVal 7) (Some (-1)) (Cache.empty 3600))).1
  <> Cache.PyVal 7.
Proof. vm_compute. discriminate. Qed.

(** With a TTL of 5 the value is read back at the clock reading of the
    [set], since [0 <= 5]. *)
Lemma set_then_get_within_ttl_witness :
  (Cache.get 100 "k" (Cache.set 100 "k" (Cache.PyVal 7) (Some 5) (Cache.empty 3600))).1
  = Cache.PyVal 7.
Proof.
  refine (proj1 (set_then_get_within_ttl 100 "k" (Cache.PyVal 7) 5 (Cache.empty 3600)) _).
  lia.
Defined.

(** ** The download coordinator *)

Import DownloadManager.

(** C7, as amended. For the title [Mod: <Test>/Name] and the id [42] the
    file name is [Mod_TestName_42.zip]: it has none of the characters
    < > : / \ | ? *, which are removed from the title and not replaced, the
    space has become an underscore, and the name ends in [_42] and the
    default extension [.zip]. *)
Theorem generate_filename_scenario :
  _generate_filename scenario_item = "Mod_TestName_42.zip"%string
  /\ PyStr.filter forbidden (_generate_filename scenario_item) = ""%string
  /\ _generate_filename scenario_item
     = (PyStr.replace " " "_" (PyStr.filter (fun c => negb (forbidden c)) scenario_title)
        +:+ "_42" +:+ ".zip")%string.
Proof. repeat split. Qed.

(** C7, the claim as stated fails: the title has [<] at index 5, and the
    file name has no underscore there. *)
Lemma generate_filename_not_underscored :
  ~ (forall i c,
       String.get i scenario_title = Some c -> forbidden c = true ->
       String.get i (_generate_filename scenario_item) = Some "_"%char).
Proof.
  intros H. specialize (H 5%nat "<"%char eq_refl eq_refl).
  vm_compute in H. discriminate.
Qed.

(** *** Duplicate requests *)

(** C3, as amended. A request whose destination path is in the active set
    is rejected: [start_download] returns false, emits one
    [download_error] and changes nothing else. *)
Theorem start_download_rejects_active it dir s :
  path_join dir (_generate_filename it) ∈ dom (active_downloads s) ->
  exists path message,
    start_download it dir s = (false, emit (download_error path message) s).
Proof.
  intros Hin. unfold start_download.
  destruct (_get_download_url it) as [u|]; [|by eauto].
  rewrite bool_decide_eq_true_2 by done. eauto.
Qed.

(** The same request made twice to a fresh manager. *)
Lemma start_download_rejects_active_witness :
  exists path message,
    start_download scenario_item "/dl"
      (start_download scenario_item "/dl" (init 3)).2
    = (false,
       emit (download_error path message)
            (start_download scenario_item "/dl" (init 3)).2).
Proof.
  apply (start_download_rejects_active scenario_item "/dl"
           (start_download scenario_item "/dl" (init 3)).2).
  vm_compute. reflexivity.
Defined.

(** C3, the claim as stated fails while the first request waits in the
    queue: with three transfers active, a request is queued and the same
    request made again is accepted and queued a second time. *)
Lemma start_download_twice_while_queued :
  let busy := starts (take 3 demo_requests) (init 3) in
  let first := start_download scenario_item "/dl" busy in
  let second := start_download scenario_item "/dl" first.2 in
  first.1 = true
  /\ download_queue first.2 = [(scenario_item, "/dl"%string)]
  /\ second.1 = true
  /\ download_queue second.2
     = [(scenario_item, "/dl"%string); (scenario_item, "/dl"%string)].
Proof. vm_compute. repeat split. Qed.

(** *** The turns of the threads *)

(** A size below 2^31 is carried by a signal as it is. *)
Lemma int32_small z : - 2 ^ 31 <= z < 2 ^ 31 -> int32 z = z.
Proof. intros Hz. unfold int32. rewrite Z.mod_small; lia. Qed.

Lemma int32_range z : - 2 ^ 31 <= int32 z < 2 ^ 31.
Proof. unfold int32. pose proof (Z.mod_pos_bound (z + 2 ^ 31) (2 ^ 32)). lia. Qed.

Lemma int32_int32 z : int32 (int32 z) = int32 z.
Proof. apply int32_small, int32_range. Qed.

Example int32_wraps : int32 3000000000 = -1294967296 /\ int32 8192 = 8192.
Proof. split; reflexivity. Qed.

(** A turn with the run of its slot, in one. *)
Lemma thread_step_unfold key total i s :
  thread_step key total i s
  = match active_downloads s !! key with
    | None => s
    | Some th =>
        if returned th then s
        else
          match i with
          | Chunk n =>
              if is_cancelled th
              then
                put_thread key (return_thread th (downloaded_size th))
                  (set_files (delete (file_path th) (files s)) s)
              else if bool_decide (n > 0)
              then
                emit (download_progress key (int32 (downloaded_size th + n)) (int32 total))
                  (put_thread key (progress_thread th (downloaded_size th + n))
                     (set_files (<[file_path th := downloaded_size th + n]> (files s)) s))
              else s
          | EndOfStream =>
              if is_cancelled th
              then put_thread key (return_thread th (downloaded_size th)) s
              else _on_download_finished key (file_path th)
                     (put_thread key (return_thread th (downloaded_size th)) s)
          | Failure message =>
              if is_cancelled th
              then put_thread key (return_thread th (downloaded_size th)) s
              else _on_download_error key message
                     (put_thread key (return_thread th (downloaded_size th)) s)
          end
    end.
Proof.
  unfold thread_step, run_turn.
  destruct (active_downloads s !! key) as [th|]; [|done].
  destruct (returned th); [done|].
  destruct i as [n| |message]; destruct (is_cancelled th); try done.
  case_bool_decide; [|done]. cbn [slot]. by rewrite !int32_int32.
Qed.

(** [thread_step] is a turn followed by the delivery of its signal, when
    no other signal waits. *)
Lemma thread_step_loop key total i s :
  loop_exec (loop_exec (s, []) (Turn key total i)) Deliver
  = (thread_step key total i s, []).
Proof.
  unfold thread_step. cbn [loop_exec fst snd].
  destruct (run_turn key total i s) as [s1 [g|]]; reflexivity.
Qed.

(** *** Cancellation *)

(** When the loop of a cancelled thread takes its next turn, the file is
    removed and nothing is emitted, and the thread stays in the active
    set. *)
Lemma cancelled_turn key total n th s :
  active_downloads s !! key = Some th ->
  is_cancelled th = true -> returned th = false ->
  let s' := thread_step key total (Chunk n) s in
  files s' = delete (file_path th) (files s)
  /\ events s' = events s
  /\ active_downloads s' !! key = Some (return_thread th (downloaded_size th))
  /\ download_queue s' = download_queue s.
Proof.
  intros Hk Hc Hr. rewrite thread_step_unfold. rewrite Hk, Hr, Hc. cbn.
  repeat split. apply lookup_insert_eq.
Qed.

(** C2. A download is started, writes a chunk and is cancelled; at the next
    chunk its loop sees the flag. The file is removed and no signal
    follows, but the path is still in the active set: the manager reports
    it as downloading and rejects a new request for it. *)
Theorem cancelled_download_stays_active :
  let path := "/dl/Mod_TestName_42.zip"%string in
  let s1 := (start_download scenario_item "/dl" (init 3)).2 in
  let s2 := thread_step path 20000 (Chunk 8192) (thread_open path s1) in
  let s3 := (cancel_download path s2).2 in
  let s4 := thread_step path 20000 (Chunk 8192) s3 in
  files s2 !! path = Some 8192
  /\ (cancel_download path s2).1 = true
  /\ files s4 !! path = None
  /\ events s4 = events s2
  /\ is_downloading path s4 = true
  /\ (start_download scenario_item "/dl" s4).1 = false.
Proof. vm_compute. repeat split. Qed.

(** ** The search loader *)

Lemma lstrip_length s : (String.length (PyStr.lstrip s) <= String.length s)%nat.
Proof.
  induction s as [|a s IH]; simpl; [lia|].
  destruct (PyStr.isspace a); simpl; lia.
Qed.

Lemma rstrip_length s : (String.length (PyStr.rstrip s) <= String.length s)%nat.
Proof.
  induction s as [|a s IH]; simpl; [lia|].
  destruct (PyStr.rstrip s); simpl in *; [|lia].
  destruct (PyStr.isspace a); simpl; lia.
Qed.

Lemma strip_length s : (String.length (PyStr.strip s) <= String.length s)%nat.
Proof.
  unfold PyStr.strip.
  pose proof (rstrip_length (PyStr.lstrip s)). pose proof (lstrip_length s). lia.
Qed.

(** The loop with its [break] returns the first [limit] matches, given
    that the limit is not yet reached when it starts. *)
Lemma search_loop_take ql limit games results :
  Z.of_nat (length results) < limit ->
  SteamAPI.search_loop ql limit games results
  = take (Z.to_nat limit) (results ++ List.filter (SteamAPI.name_matches ql) games).
Proof.
  revert results. induction games as [|g games IH]; intros results Hlen; simpl.
  - rewrite app_nil_r. symmetry. apply take_ge. lia.
  - destruct (SteamAPI.name_matches ql g).
    + case_bool_decide as Hfull.
      * rewrite length_app in Hfull. simpl in Hfull.
        replace (results ++ g :: List.filter (SteamAPI.name_matches ql) games)
          with ((results ++ [g]) ++ List.filter (SteamAPI.name_matches ql) games)
          by (by rewrite <- app_assoc).
        symmetry. apply take_app_length'. rewrite length_app. simpl. lia.
      * rewrite IH by lia. by rewrite <- app_assoc.
    + by apply IH.
Qed.

Lemma search_games_take query limit :
  1 <= limit ->
  SteamAPI.search_games query limit
  = take (Z.to_nat limit)
      (List.filter (SteamAPI.name_matches (PyStr.lower query)) SteamAPI.popular_games).
Proof.
  intros Hl. unfold SteamAPI.search_games. rewrite search_loop_take; [done|].
  simpl. lia.
Qed.

(** A query that passes the length test and is not in the cache is fetched
    once, and what [search_games] returns is emitted and cached. *)
Lemma search_run_miss query now_get now_set c :
  2 <= PyStr.len (PyStr.strip query) ->
  SearchThread.truthy
    (Cache.get now_get ("search_games_" +:+ PyStr.lower query) c).1 = false ->
  let tr := SearchThread.run query false false false now_get now_set c in
  SearchThread.emitted tr
    = [SearchThread.search_results (SteamAPI.search_games query 20)]
  /\ SearchThread.fetches tr = [(query, 20)].
Proof.
  intros Hlen Hmiss. unfold SearchThread.run.
  rewrite bool_decide_eq_false_2 by lia.
  destruct (Cache.get now_get _ c) as [r c']. cbn in Hmiss. rewrite Hmiss.
  done.
Qed.

(** C8. A query of fewer than two characters makes the loader emit the
    empty list without a call of [search_games]; and the fetch of the
    loader, [search_games(query, 20)], returns the games of the catalog whose
    lower-cased name contains the lower-cased query, in catalog order, up
    to the limit of 20. *)
Theorem search_short_query_no_fetch query cancelled1 cancelled2 cancelled3
    now_get now_set c :
  ((String.length query < 2)%nat ->
   SearchThread.run query cancelled1 cancelled2 cancelled3 now_get now_set c
   = SearchThread.mkTrace [SearchThread.search_results []] [] c)
  /\ SteamAPI.search_games query 20
     = take 20 (List.filter
                  (fun g => PyStr.contains (PyStr.lower query)
                              (PyStr.lower (SteamAPI.name g)))
                  SteamAPI.popular_games).
Proof.
  split.
  - intros Hlen. unfold SearchThread.run. rewrite bool_decide_eq_true_2; [done|].
    unfold PyStr.len. pose proof (strip_length query). lia.
  - by rewrite search_games_take.
Qed.

(** The query [D]. *)
Lemma search_short_query_no_fetch_witness :
  SearchThread.run "D" false false false 0 0 (Cache.empty 3600)
  = SearchThread.mkTrace [SearchThread.search_results []] [] (Cache.empty 3600).
Proof.
  refine (proj1 (search_short_query_no_fetch "D" false false false 0 0
                   (Cache.empty 3600)) _).
  simpl. lia.
Defined.

(** The query [Do] finds the two games with [do] in their names. *)
Example search_Do :
  map SteamAPI.name (SteamAPI.search_games "Do" 20)
  = ["Dota 2"; "Don't Starve Together"]%string.
Proof. reflexivity. Qed.

(** *** Bounded concurrency and the queue *)

Lemma started_paths_app evs evs' :
  started_paths (evs ++ evs') = started_paths evs ++ started_paths evs'.
Proof. apply omap_app. Qed.

Lemma requested_init M : requested [] M (init (Z.of_nat M)).
Proof.
  unfold requested, init, all_running, threads_running. cbn.
  rewrite take_nil, drop_nil.
  split_and!; try done. by rewrite Nat.min_0_r.
Qed.

Lemma threads_running_insert key th a :
  threads_running a -> is_cancelled th = false -> returned th = false ->
  threads_running (<[key := th]> a).
Proof.
  intros Hrun Hc Hr key' th' Hk.
  destruct (decide (key' = key)) as [->|Hne].
  - rewrite lookup_insert_eq in Hk. by inversion Hk; subst.
  - rewrite lookup_insert_ne in Hk by done. by apply (Hrun key' th').
Qed.

Lemma threads_running_delete key a :
  threads_running a -> threads_running (delete key a).
Proof.
  intros Hrun key' th' Hk. apply lookup_delete_Some in Hk as [_ Hk].
  by apply (Hrun key' th').
Qed.

(** One more request: it is started when fewer than [M] are active, and
    goes to the end of the queue otherwise. *)
Lemma requested_start done M s x :
  requested done M s -> resolvable x -> dest x ∉ (dest <$> done) ->
  requested (done ++ [x]) M (start_download x.1 x.2 s).2.
Proof.
  intros (Hmax & Hdom & Hsize & Hq & Hrun & Hev) [u Hu] Hfresh.
  assert (Hnot : dest x ∉ dom (active_downloads s)).
  { rewrite Hdom. intros Hin. apply elem_of_list_to_set in Hin.
    apply Hfresh. apply list_elem_of_fmap in Hin as [y [-> Hy]].
    apply list_elem_of_fmap. exists y. split; [done|].
    by apply (subseteq_take M done). }
  assert (Hnone : active_downloads s !! dest x = None).
  { destruct (active_downloads s !! dest x) eqn:E; [|done].
    exfalso. apply Hnot, elem_of_dom. eauto. }
  unfold start_download. rewrite Hu. fold (dest x).
  rewrite bool_decide_eq_false_2 by done.
  unfold active_count. rewrite Hmax, Hsize.
  case_bool_decide as Hfull.
  - assert (M <= length done)%nat by lia.
    unfold requested. cbn.
    rewrite take_app_le, drop_app_le by done. rewrite length_app. cbn.
    split_and!; try done.
    + rewrite Hsize. lia.
    + rewrite Hq. by destruct x.
  - assert (length done < M)%nat by lia.
    unfold requested, _start_download_thread, all_running. cbn.
    rewrite (take_ge (done ++ [x])) by (rewrite length_app; cbn; lia).
    rewrite (drop_ge (done ++ [x])) by (rewrite length_app; cbn; lia).
    rewrite (take_ge done) in Hdom, Hev by lia.
    rewrite (drop_ge done) in Hq by lia.
    rewrite length_app. cbn.
    split_and!; try done.
    + rewrite dom_insert_L, Hdom, fmap_app, list_to_set_app_L. cbn.
      by rewrite union_empty_r_L, (comm_L (∪)).
    + rewrite (map_size_insert_None (dest x) _ (active_downloads s) Hnone).
      rewrite Hsize. lia.
    + by apply threads_running_insert.
    + rewrite started_paths_app, Hev, fmap_app. done.
Qed.

Lemma requested_starts rest : forall done M s,
  requested done M s ->
  NoDup (dest <$> (done ++ rest)) -> Forall resolvable rest ->
  requested (done ++ rest) M (starts rest s).
Proof.
  induction rest as [|x rest IH]; intros done M s Hreq Hnd Hres.
  - by rewrite app_nil_r.
  - apply Forall_cons in Hres as [Hx Hres]. cbn.
    replace (done ++ x :: rest) with ((done ++ [x]) ++ rest) in *
      by (by rewrite <- app_assoc).
    apply IH; try done. apply requested_start; try done.
    rewrite !fmap_app in Hnd. apply NoDup_app in Hnd as [Hnd _].
    apply NoDup_app in Hnd as (_ & Hd & _). intros Hin.
    apply (Hd _ Hin). cbn. by left.
Qed.

Lemma drop_head {A} (xs : list A) j x rest :
  drop j xs = x :: rest ->
  xs !! j = Some x /\ rest = drop (S j) xs
  /\ take (S j) xs = take j xs ++ [x] /\ (j < length xs)%nat.
Proof.
  intros Hd.
  assert (Hx : xs !! j = Some x).
  { pose proof (lookup_drop xs j 0) as Hl. rewrite Hd, Nat.add_0_r in Hl.
    by inversion Hl. }
  split_and!; try done.
  - rewrite (drop_S _ _ _ Hx) in Hd. by inversion Hd.
  - by apply take_S_r.
  - by eapply lookup_lt_Some.
Qed.

Lemma fresh_dest xs j x :
  NoDup (dest <$> xs) -> xs !! j = Some x ->
  dest x ∉ (list_to_set (dest <$> take j xs) : gset string).
Proof.
  intros Hnd Hx Hin. apply elem_of_list_to_set in Hin.
  rewrite <- (take_drop_middle xs j x Hx), fmap_app in Hnd.
  apply NoDup_app in Hnd as (_ & Hd & _). apply (Hd _ Hin).
  rewrite fmap_cons. by left.
Qed.

(** The state is read by [started_upto] through the limit, the queue, the
    active set and the paths started. *)
Lemma started_upto_ext xs M j s s' :
  max_concurrent_downloads s' = max_concurrent_downloads s ->
  download_queue s' = download_queue s ->
  active_downloads s' = active_downloads s ->
  started_paths (events s') = started_paths (events s) ->
  started_upto xs M j s -> started_upto xs M j s'.
Proof.
  intros Hm Hq Ha He (H1 & H2 & H3 & H4 & H5 & H6).
  unfold started_upto, all_running. rewrite Hm, Hq, Ha, He. done.
Qed.

(** A thread of the active set is replaced by a thread that also runs. *)
Lemma started_upto_put xs M j s key th th' :
  active_downloads s !! key = Some th ->
  is_cancelled th' = false -> returned th' = false ->
  started_upto xs M j s -> started_upto xs M j (put_thread key th' s).
Proof.
  intros Hk Hc Hr (H1 & H2 & H3 & H4 & H5 & H6).
  unfold started_upto, all_running, put_thread. cbn.
  assert (Hdom : dom (<[key:=th']> (active_downloads s)) = dom (active_downloads s)).
  { rewrite dom_insert_L. apply (elem_of_dom_2 (D:=gset string)) in Hk.
    apply set_eq. intros y. rewrite elem_of_union, elem_of_singleton.
    split; [intros [->|]; done | by right]. }
  split_and!; try done.
  - by rewrite Hdom.
  - intros Hj. rewrite map_size_insert_Some by eauto. by apply H4.
  - by apply threads_running_insert.
Qed.

(** With a free slot, [_start_next_download] starts the head of the
    queue. *)
Lemma start_next_head xs j s x rest :
  NoDup (dest <$> xs) -> Forall resolvable xs ->
  download_queue s = x :: rest -> xs !! j = Some x ->
  dom (active_downloads s) ⊆ list_to_set (dest <$> take j xs) ->
  active_count s < max_concurrent_downloads s ->
  exists u,
    _start_next_download s
    = emit (download_started (dest x) x.1)
        (set_active
           (<[dest x := mkThread u (dest x) x.1 false 0 false]> (active_downloads s))
           (set_queue rest s)).
Proof.
  intros Hnd Hres Hq Hx Hdom Hfree.
  assert (Hnot : dest x ∉ dom (active_downloads s)).
  { intros Hin. by apply (fresh_dest xs j x Hnd Hx), Hdom. }
  destruct (proj1 (Forall_forall _ _) Hres x) as [u Hu].
  { by eapply list_elem_of_lookup_2. }
  exists u. unfold _start_next_download. rewrite Hq. destruct x as [it dir].
  rewrite bool_decide_eq_true_2 by done.
  unfold start_download. cbn in Hu. rewrite Hu.
  unfold dest in *. cbn in *.
  rewrite bool_decide_eq_false_2 by done.
  rewrite bool_decide_eq_false_2; [done|].
  unfold active_count in *. cbn. lia.
Qed.

(** A download has ended: its thread leaves the active set, a signal [e]
    other than [download_started] is emitted, and [_start_next_download]
    runs. With a request waiting, the head of the queue is started and
    takes the free slot. *)
Lemma advance_queue xs M j s key th th' e :
  NoDup (dest <$> xs) -> Forall resolvable xs ->
  started_upto xs M j s -> active_downloads s !! key = Some th ->
  started_paths [e] = [] ->
  let s1 := emit e (remove_active key (put_thread key th' s)) in
  let s' := _start_next_download s1 in
  match download_queue s with
  | [] => s' = s1 /\ started_upto xs M j s'
  | x :: rest =>
      download_queue s' = rest
      /\ started_paths (events s') = started_paths (events s) ++ [dest x]
      /\ dest x ∈ dom (active_downloads s')
      /\ size (active_downloads s') = M
      /\ started_upto xs M (S j) s'
  end.
Proof.
  intros Hnd Hres (Hmax & Hq & Hdom & Hsize & Hrun & Hev) Hk He s1 s'.
  assert (Ha1 : active_downloads s1 = delete key (active_downloads s)).
  { subst s1. cbn. apply delete_insert_eq. }
  assert (Hdom1 : dom (active_downloads s1) ⊆ list_to_set (dest <$> take j xs)).
  { rewrite Ha1, dom_delete_L. intros y Hy. apply Hdom.
    by apply elem_of_difference in Hy as [Hy _]. }
  assert (Hrun1 : threads_running (active_downloads s1)).
  { rewrite Ha1. by apply threads_running_delete. }
  assert (Hev1 : started_paths (events s1) = started_paths (events s)).
  { subst s1. cbn. fold (started_paths (events s ++ [e])).
    by rewrite started_paths_app, He, app_nil_r. }
  destruct (download_queue s) as [|x rest] eqn:Hqs.
  - assert (Hs' : s' = s1).
    { subst s'. unfold _start_next_download.
      replace (download_queue s1) with (download_queue s) by done.
      by rewrite Hqs. }
    split; [done|]. rewrite Hs'. unfold started_upto, all_running.
    split_and!; try done.
    + by rewrite <- Hq.
    + intros Hj. exfalso.
      assert (length (drop j xs) = 0%nat) as Hl by (by rewrite <- Hq).
      rewrite length_drop in Hl. lia.
    + by rewrite Hev1.
  - symmetry in Hq. destruct (drop_head xs j x rest Hq) as (Hx & Hrest & Htake & Hj).
    specialize (Hsize Hj).
    assert (Hsz1 : size (active_downloads s1) = Nat.pred M).
    { rewrite Ha1. rewrite map_size_delete_Some by eauto. by rewrite Hsize. }
    assert (HM : (M <> 0)%nat).
    { rewrite <- Hsize. apply map_size_ne_0_lookup. eauto. }
    destruct (start_next_head xs j s1 x rest Hnd Hres) as [u Hu]; try done.
    { unfold active_count. rewrite Hsz1.
      replace (max_concurrent_downloads s1) with (max_concurrent_downloads s) by done.
      lia. }
    assert (Hnot : active_downloads s1 !! dest x = None).
    { destruct (active_downloads s1 !! dest x) eqn:E; [|done]. exfalso.
      apply (fresh_dest xs j x Hnd Hx), Hdom1, elem_of_dom. eauto. }
    subst s'. rewrite Hu. unfold started_upto, all_running. cbn.
    fold (started_paths ((events s ++ [e]) ++ [download_started (dest x) x.1])).
    rewrite !started_paths_app, He, app_nil_r. cbn.
    fold (active_downloads s1). rewrite Htake, fmap_app, list_to_set_app_L.
    assert (Hsz : size (<[dest x := mkThread u (dest x) x.1 false 0 false]>
                     (active_downloads s1)) = M).
    { rewrite (map_size_insert_None _ _ _ Hnot), Hsz1. lia. }
    rewrite dom_insert_L.
    split_and!; try done.
    + apply elem_of_union_l. by apply elem_of_singleton.
    + cbn. intros y Hy. apply elem_of_union in Hy as [Hy|Hy].
      * apply elem_of_union_r. rewrite union_empty_r_L. done.
      * apply elem_of_union_l. by apply Hdom1.
    + by apply threads_running_insert.
    + by rewrite Hev.
Qed.

Lemma advanced_emit xs M j s s' e :
  started_paths [e] = [] -> advanced xs M j s s' -> advanced xs M j s (emit e s').
Proof.
  intros He. unfold advanced.
  assert (Hp : started_paths (events (emit e s')) = started_paths (events s')).
  { cbn. fold (started_paths (events s' ++ [e])).
    by rewrite started_paths_app, He, app_nil_r. }
  destruct (download_queue s) as [|x rest].
  - intros (H1 & H2 & H3). split_and!; [done|by rewrite Hp|].
    by apply (started_upto_ext xs M j s').
  - intros (H1 & H2 & H3 & H4 & H5). split_and!; [done|by rewrite Hp|done|done|].
    by apply (started_upto_ext xs M (S j) s').
Qed.

Lemma advanced_next xs M j s key th th' e :
  NoDup (dest <$> xs) -> Forall resolvable xs ->
  started_upto xs M j s -> active_downloads s !! key = Some th ->
  started_paths [e] = [] ->
  advanced xs M j s
    (_start_next_download (emit e (remove_active key (put_thread key th' s)))).
Proof.
  intros Hnd Hres Hinv Hk He.
  pose proof (advance_queue xs M j s key th th' e Hnd Hres Hinv Hk He) as H.
  cbn zeta in H. unfold advanced.
  destruct (download_queue s) as [|x rest] eqn:Hq; [|done].
  destruct H as [-> Hup]. split_and!; try done.
  cbn. fold (started_paths (events s ++ [e])).
  by rewrite started_paths_app, He, app_nil_r.
Qed.

(** A thread that reaches the end of the body or fails frees its slot, and
    the head of the queue, if there is one, is started. *)
Lemma terminal_step xs M j s key th total i :
  NoDup (dest <$> xs) -> Forall resolvable xs ->
  started_upto xs M j s -> active_downloads s !! key = Some th ->
  terminal i ->
  advanced xs M j s (thread_step key total i s).
Proof.
  intros Hnd Hres Hinv Hk Hi.
  destruct (proj1 (proj2 (proj2 (proj2 (proj2 Hinv)))) key th Hk) as [Hc Hr].
  rewrite thread_step_unfold. rewrite Hk, Hr. destruct i as [n| |message]; [done| |].
  - rewrite Hc. unfold _on_download_finished.
    pose proof (advanced_next xs M j s key th
                  (return_thread th (downloaded_size th))
                  (download_finished key (file_path th)) Hnd Hres Hinv Hk eq_refl)
      as Hadv.
    destruct (bool_decide _ && bool_decide _); [|done].
    by apply advanced_emit.
  - rewrite Hc. unfold _on_download_error.
    by apply (advanced_next xs M j s key th).
Qed.

Lemma advanced_inv xs M j s s' :
  advanced xs M j s s' -> exists j', started_upto xs M j' s'.
Proof.
  unfold advanced. destruct (download_queue s).
  - intros (_ & _ & H). eauto.
  - intros (_ & _ & _ & _ & H). eauto.
Qed.

(** Every turn of a thread keeps the invariant. *)
Lemma thread_step_inv xs M j s key total i :
  NoDup (dest <$> xs) -> Forall resolvable xs ->
  started_upto xs M j s ->
  exists j', started_upto xs M j' (thread_step key total i s).
Proof.
  intros Hnd Hres Hinv.
  destruct (active_downloads s !! key) as [th|] eqn:Hk.
  - destruct i as [n| |message].
    + exists j.
      destruct (proj1 (proj2 (proj2 (proj2 (proj2 Hinv)))) key th Hk) as [Hc Hr].
      rewrite thread_step_unfold. rewrite Hk, Hr, Hc.
      case_bool_decide; [|done].
      eapply (started_upto_ext xs M j
                (put_thread key (progress_thread th (downloaded_size th + n)) s));
        try done.
      * cbn. fold (started_paths (events s ++
          [download_progress key (int32 (downloaded_size th + n)) (int32 total)])).
        by rewrite started_paths_app, app_nil_r.
      * by apply (started_upto_put xs M j s key th).
    + eapply advanced_inv, (terminal_step xs M j s key th); done.
    + eapply advanced_inv, (terminal_step xs M j s key th); done.
  - exists j. rewrite thread_step_unfold. by rewrite Hk.
Qed.

Lemma thread_open_inv xs M j s key :
  started_upto xs M j s -> started_upto xs M j (thread_open key s).
Proof.
  intros Hinv. unfold thread_open.
  destruct (active_downloads s !! key) as [th|]; [|done].
  destruct (returned th); [done|]. by apply (started_upto_ext xs M j s).
Qed.

Lemma reachable_inv xs M s :
  NoDup (dest <$> xs) -> Forall resolvable xs -> (M < length xs)%nat ->
  reachable xs M s -> exists j, started_upto xs M j s.
Proof.
  intros Hnd Hres HM Hreach. induction Hreach as [|s key _ [j IH]|s key total i _ [j IH]].
  - exists M.
    destruct (requested_starts xs [] M (init (Z.of_nat M)) (requested_init M) Hnd Hres)
      as (H1 & H2 & H3 & H4 & H5 & H6).
    cbn in *. unfold started_upto. split_and!; try done.
    + by rewrite H2.
    + intros _. rewrite H3. lia.
  - exists j. by apply thread_open_inv.
  - by apply (thread_step_inv xs M j).
Qed.

(** C4. [N] requests with distinct destination paths, each with a download
    URL, are made to a manager with limit [M < N]. Then exactly [M]
    transfers are active and [N - M] requests are queued. From then on,
    whenever an active transfer ends, by completion or by failure, the head
    of the queue and nothing else is started, so that the transfers are
    started in the order of the requests. *)
Theorem bounded_concurrency_fifo xs M :
  NoDup (dest <$> xs) -> Forall resolvable xs -> (M < length xs)%nat ->
  let s0 := starts xs (init (Z.of_nat M)) in
  (size (active_downloads s0) = M
   /\ length (download_queue s0) = (length xs - M)%nat
   /\ download_queue s0 = drop M xs
   /\ dom (active_downloads s0) = list_to_set (dest <$> take M xs))
  /\ forall s, reachable xs M s ->
       (exists j, download_queue s = drop j xs
                  /\ started_paths (events s) = dest <$> take j xs)
       /\ forall key th total i,
            active_downloads s !! key = Some th -> terminal i ->
            let s' := thread_step key total i s in
            match download_queue s with
            | [] =>
                download_queue s' = []
                /\ started_paths (events s') = started_paths (events s)
            | x :: rest =>
                download_queue s' = rest
                /\ started_paths (events s') = started_paths (events s) ++ [dest x]
                /\ dest x ∈ dom (active_downloads s')
                /\ size (active_downloads s') = M
            end.
Proof.
  intros Hnd Hres HM s0. split.
  - destruct (requested_starts xs [] M (init (Z.of_nat M)) (requested_init M) Hnd Hres)
      as (H1 & H2 & H3 & H4 & H5 & H6).
    cbn in *. fold s0 in H2, H3, H4. split_and!; try done.
    + rewrite H3. lia.
    + rewrite H4, length_drop. done.
  - intros s Hreach.
    destruct (reachable_inv xs M s Hnd Hres HM Hreach) as [j Hinv].
    split.
    + exists j. by destruct Hinv as (_ & Hq & _ & _ & _ & Hev).
    + intros key th total i Hk Hi s'.
      pose proof (terminal_step xs M j s key th total i Hnd Hres Hinv Hk Hi) as Hadv.
      unfold advanced in Hadv. fold s' in Hadv.
      destruct (download_queue s) as [|x rest].
      * by destruct Hadv as (Ha & Hb & _).
      * by destruct Hadv as (Ha & Hb & Hc & Hd & _).
Qed.

(** Four requests and a limit of three. *)
Lemma bounded_concurrency_fifo_witness :
  size (active_downloads (starts demo_requests (init 3))) = 3%nat
  /\ length (download_queue (starts demo_requests (init 3))) = 1%nat.
Proof.
  assert (Hnd : NoDup (dest <$> demo_requests)).
  { apply (bool_decide_unpack _). vm_compute. exact I. }
  assert (Hres : Forall resolvable demo_requests).
  { repeat constructor; vm_compute; eauto. }
  assert (HM : (3 < length demo_requests)%nat) by (simpl; lia).
  destruct (bounded_concurrency_fifo demo_requests 3 Hnd Hres HM)
    as [(H1 & H2 & _) _].
  split; [exact H1 | exact H2].
Defined.

(** * Further properties of the code *)

(** ** The cache: deletion, statistics, invalidation *)

Section CacheOperations.

Context {V : Type}.
Implicit Types (c : Cache.t V) (m : gmap string (Cache.entry V)).

Lemma delete_memory k c :
  Cache._memory_cache (Cache.delete k c).2 = delete k (Cache._memory_cache c).
Proof.
  unfold Cache.delete.
  destruct (Cache._memory_cache c !! k) eqn:Hk; cbn; [done|].
  symmetry. by apply delete_id.
Qed.

(** X1. [delete] tells whether the key was in the dict, expired or not; after
    it the key reads as absent and the other keys are as before. *)
Theorem delete_removes_key k c :
  ((Cache.delete k c).1 = true <-> is_Some (Cache._memory_cache c !! k))
  /\ (forall now, Cache.get now k (Cache.delete k c).2
                  = (Cache.PyNone, (Cache.delete k c).2))
  /\ (forall k', k' <> k ->
        Cache._memory_cache (Cache.delete k c).2 !! k'
        = Cache._memory_cache c !! k')
  /\ (Cache.delete k (Cache.delete k c).2).1 = false.
Proof.
  assert (Hgone : Cache._memory_cache (Cache.delete k c).2 !! k = None).
  { rewrite delete_memory. apply lookup_delete_eq. }
  split_and!.
  - unfold Cache.delete. destruct (Cache._memory_cache c !! k); cbn.
    + split; eauto.
    + split; [done|]. by intros [x Hx].
  - intros now. by apply get_absent.
  - intros k' Hne. rewrite delete_memory. by apply lookup_delete_ne.
  - unfold Cache.delete at 1. by rewrite Hgone.
Qed.

(** The number of expired keys is the size of the expired part of the
    dict. *)
Lemma expired_count now c :
  length (Cache.expired_keys now c)
  = size (filter (fun kv => Cache.expired now kv.2 = true) (Cache._memory_cache c)).
Proof.
  rewrite <- length_map_to_list.
  rewrite <- (length_fmap fst (map_to_list (filter _ _))).
  apply Permutation_length, NoDup_Permutation.
  - apply NoDup_expired_keys.
  - apply NoDup_fst_map_to_list.
  - intros k. rewrite elem_of_expired_keys, list_elem_of_fmap. split.
    + intros [e [Hk He]]. exists (k, e). split; [done|].
      apply elem_of_map_to_list, map_lookup_filter_Some. done.
    + intros [[k' e] [-> Hin]].
      apply elem_of_map_to_list, map_lookup_filter_Some in Hin as [Hk He]. eauto.
Qed.

Lemma expired_count_le now c :
  (length (Cache.expired_keys now c) <= size (Cache._memory_cache c))%nat.
Proof. rewrite expired_count. apply map_size_filter. Qed.

(** No key of the dict after [cleanup_expired] is expired. *)
Lemma cleanup_leaves_none_expired now c :
  Cache.expired_keys now (Cache.cleanup_expired now c).2 = [].
Proof.
  destruct (Cache.expired_keys now (Cache.cleanup_expired now c).2) as [|k ks] eqn:Hks;
    [done|].
  exfalso.
  assert (Hin : k ∈ Cache.expired_keys now (Cache.cleanup_expired now c).2)
    by (rewrite Hks; by left).
  apply elem_of_expired_keys in Hin as [e [Hk He]].
  unfold Cache.cleanup_expired in Hk. cbn in Hk.
  rewrite cleanup_memory, delete_keys_lookup in Hk.
  destruct (decide (k ∈ Cache.expired_keys now c)) as [Hin|Hin]; [done|].
  apply Hin, elem_of_expired_keys. eauto.
Qed.

(** X2. [get_stats] and [cleanup_expired] agree: the statistics split the
    items into active and expired ones, [cleanup_expired] at the same
    clock reading returns the number of expired items, and after it the
    statistics show the active items alone. *)
Theorem get_stats_and_cleanup now c :
  let st := Cache.get_stats now c in
  let st' := Cache.get_stats now (Cache.cleanup_expired now c).2 in
  Cache.total_items st = Cache.active_items st + Cache.expired_items st
  /\ 0 <= Cache.expired_items st <= Cache.total_items st
  /\ Z.of_nat (Cache.cleanup_expired now c).1 = Cache.expired_items st
  /\ Cache.expired_items st' = 0
  /\ Cache.total_items st' = Cache.active_items st
  /\ Cache.active_items st' = Cache.active_items st.
Proof.
  intros st st'. subst st st'. unfold Cache.get_stats.
  rewrite cleanup_leaves_none_expired.
  cbn [Cache.total_items Cache.active_items Cache.expired_items length].
  pose proof (expired_count_le now c) as Hle.
  assert (Hsz : (size (Cache._memory_cache (Cache.cleanup_expired now c).2)
                 + length (Cache.expired_keys now c))%nat
                = size (Cache._memory_cache c)).
  { unfold Cache.cleanup_expired. cbn [snd]. rewrite cleanup_memory.
    apply delete_keys_size; [apply NoDup_expired_keys|].
    intros k Hin. apply elem_of_expired_keys in Hin as [e [-> _]]. eauto. }
  assert (Hn : (Cache.cleanup_expired now c).1 = length (Cache.expired_keys now c))
    by done.
  rewrite Hn. split_and!; lia.
Qed.

(** X3. A [get] that finds its entry expired takes it out of the statistics:
    one item and one expired item less, the active ones as before. *)
Theorem get_evicts_expired now k c d ts ttl :
  Cache._memory_cache c !! k = Some (d, ts, ttl) -> now - ts > ttl ->
  let st := Cache.get_stats now c in
  let st' := Cache.get_stats now (Cache.get now k c).2 in
  (Cache.get now k c).1 = Cache.PyNone
  /\ Cache.total_items st' = Cache.total_items st - 1
  /\ Cache.expired_items st' = Cache.expired_items st - 1
  /\ Cache.active_items st' = Cache.active_items st.
Proof.
  intros Hk Hexp st st'. subst st st'.
  rewrite (get_expired now k c d ts ttl Hk Hexp). unfold Cache.get_stats. cbn.
  rewrite !expired_count. cbn.
  rewrite map_filter_delete.
  assert (Hf : filter (fun kv => Cache.expired now kv.2 = true) (Cache._memory_cache c)
               !! k = Some (d, ts, ttl)).
  { apply map_lookup_filter_Some. split; [done|]. by apply expired_true. }
  rewrite !map_size_delete_Some by eauto.
  assert (size (Cache._memory_cache c) <> 0%nat)
    by (apply map_size_ne_0_lookup; eauto).
  assert (size (filter (fun kv => Cache.expired now kv.2 = true)
                  (Cache._memory_cache c)) <> 0%nat)
    by (apply map_size_ne_0_lookup; eauto).
  split_and!; [done|lia..].
Qed.

End CacheOperations.

(** The scenario of the demonstration: a TTL of 5, read 6 later. *)
Lemma get_evicts_expired_witness :
  Cache.total_items
    (Cache.get_stats 106 (Cache.get 106 "k" (Cache.set 100 "k" (Cache.PyVal 7) (Some 5)
                                               (Cache.empty 10))).2)
  = Cache.total_items
      (Cache.get_stats 106 (Cache.set 100 "k" (Cache.PyVal 7) (Some 5) (Cache.empty 10)))
    - 1.
Proof.
  refine (proj1 (proj2 (get_evicts_expired 106 "k"
            (Cache.set 100 "k" (Cache.PyVal 7) (Some 5) (Cache.empty 10))
            (Cache.PyVal 7) 100 5 _ _))).
  - reflexivity.
  - lia.
Defined.

Section CacheInvalidation.

Context {V : Type}.
Implicit Types (c : Cache.t V) (m : gmap string (Cache.entry V)).

(** X4. [clear] leaves an empty dict and no record file, other files stay; a
    second [clear] changes nothing. *)
Theorem clear_empties c :
  Cache._memory_cache (Cache.clear c) = ∅
  /\ (forall now k, Cache.get now k (Cache.clear c) = (Cache.PyNone, Cache.clear c))
  /\ (forall now, Cache.total_items (Cache.get_stats now (Cache.clear c)) = 0)
  /\ (forall f, Cache.cache_dir (Cache.clear c) !! f
                = if PyStr.endswith f ".cache" then None else Cache.cache_dir c !! f)
  /\ Cache.clear (Cache.clear c) = Cache.clear c.
Proof.
  assert (Hdir : forall f, Cache.cache_dir (Cache.clear c) !! f
                   = if PyStr.endswith f ".cache" then None else Cache.cache_dir c !! f).
  { intros f. unfold Cache.clear. cbn. rewrite map_lookup_filter.
    destruct (Cache.cache_dir c !! f) as [e|]; cbn.
    - destruct (PyStr.endswith f ".cache").
      + by rewrite option_guard_False.
      + by rewrite option_guard_True.
    - by destruct (PyStr.endswith f ".cache"). }
  split_and!.
  - done.
  - intros now k. apply get_absent. unfold Cache.clear. cbn. apply lookup_empty.
  - intros now. unfold Cache.get_stats, Cache.clear. cbn. by rewrite map_size_empty.
  - done.
  - assert (Hd : filter (fun kv => PyStr.endswith kv.1 ".cache" = false)
                   (Cache.cache_dir (Cache.clear c))
                 = Cache.cache_dir (Cache.clear c)).
    { apply map_eq. intros f. rewrite map_lookup_filter, Hdir.
      destruct (PyStr.endswith f ".cache") eqn:Hf; [done|].
      destruct (Cache.cache_dir c !! f); cbn; [|done].
      by rewrite option_guard_True. }
    unfold Cache.clear at 1. by rewrite Hd.
Qed.

Lemma fold_delete_memory ks c :
  Cache._memory_cache (fold_left (fun c key => (Cache.delete key c).2) ks c)
  = fold_left (fun m k => delete k m) ks (Cache._memory_cache c).
Proof.
  revert c. induction ks as [|k ks IH]; intros c; cbn; [done|].
  by rewrite IH, delete_memory.
Qed.

(** X5. [invalidate_pattern] removes exactly the keys that contain the pattern,
    leaves the others as they were and returns the number removed; the
    empty pattern removes every key. *)
Theorem invalidate_pattern_exact pattern c :
  let r := Cache.invalidate_pattern pattern c in
  (forall k,
     Cache._memory_cache r.2 !! k
     = if PyStr.contains pattern k then None else Cache._memory_cache c !! k)
  /\ (size (Cache._memory_cache r.2) + r.1)%nat = size (Cache._memory_cache c)
  /\ (pattern = ""%string -> Cache._memory_cache r.2 = ∅).
Proof.
  intros r. subst r. unfold Cache.invalidate_pattern. cbn [fst snd].
  set (ks := List.filter (PyStr.contains pattern)
               (map_to_list (Cache._memory_cache c)).*1).
  assert (Hin : forall k, k ∈ ks <->
            is_Some (Cache._memory_cache c !! k) /\ PyStr.contains pattern k = true).
  { intros k. subst ks. rewrite list_elem_of_In, filter_In, <- list_elem_of_In.
    rewrite list_elem_of_fmap. split.
    - intros [[[k' e] [-> Hk]] Hp]. apply elem_of_map_to_list in Hk. eauto.
    - intros [[e Hk] Hp]. split; [|done]. exists (k, e). split; [done|].
      by apply elem_of_map_to_list. }
  assert (Hlook : forall k,
     Cache._memory_cache (fold_left (fun c key => (Cache.delete key c).2) ks c) !! k
     = if PyStr.contains pattern k then None else Cache._memory_cache c !! k).
  { intros k. rewrite fold_delete_memory, delete_keys_lookup.
    destruct (decide (k ∈ ks)) as [Hk|Hk].
    - apply Hin in Hk as [_ ->]. done.
    - destruct (PyStr.contains pattern k) eqn:Hp; [|done].
      destruct (Cache._memory_cache c !! k) eqn:Hm; [|done].
      exfalso. apply Hk, Hin. eauto. }
  split_and!.
  - done.
  - rewrite fold_delete_memory. apply delete_keys_size.
    + subst ks. apply NoDup_ListNoDup, List.NoDup_filter, NoDup_ListNoDup.
      apply NoDup_fst_map_to_list.
    + intros k Hk. by apply Hin in Hk as [Hk _].
  - intros ->. apply map_eq. intros k. rewrite Hlook, lookup_empty.
    by destruct k.
Qed.

(** X6. [refresh_key] calls the producer once whatever the cache holds. What
    the producer returns replaces the entry, and a [get_or_set] within the
    TTL then returns it with no call of its own producer; an exception of
    the producer leaves the cache as it was. *)
Theorem refresh_key_then_get_or_set {W W' : Type} now k
    (p : W -> Cache.outcome (Cache.pyobj V) * W) ttl c w :
  let r := Cache.refresh_key now k (Cache.counted p) ttl c (w, 0%nat) in
  r.2 = ((p w).2, 1%nat)
  /\ match (p w).1 with
     | Cache.Returned d =>
         r.1.1 = Cache.Returned d
         /\ Cache._memory_cache r.1.2 !! k
            = Some (d, now, Cache.ttl_or_default ttl c)
         /\ forall v now_get now_set ttl'
                   (q : W' -> Cache.outcome (Cache.pyobj V) * W') w',
              d = Cache.PyVal v ->
              now_get - now <= Cache.ttl_or_default ttl c ->
              Cache.get_or_set now_get now_set k (Cache.counted q) ttl' r.1.2
                               (w', 0%nat)
              = (Cache.Returned d, r.1.2, (w', 0%nat))
     | Cache.Raised e => r.1 = (Cache.Raised e, c)
     end.
Proof.
  intros r. subst r. unfold Cache.refresh_key, Cache.counted. cbn.
  destruct (p w) as [[d|e] w1]; cbn; [|done].
  split; [done|]. split; [done|].
  pose proof (set_lookup now k d ttl c) as Hs.
  split; [done|].
  intros v now_get now_set ttl' q w' -> Hlive.
  unfold Cache.get_or_set.
  by rewrite (get_live now_get k _ _ _ _ Hs Hlive).
Qed.

End CacheInvalidation.

(** ** The names of the record files *)

Lemma prefix_cons a s1 c s2 :
  String.prefix (String a s1) (String c s2) = Ascii.eqb a c && String.prefix s1 s2.
Proof.
  change (String.prefix (String a s1) (String c s2))
    with (match ascii_dec a c with
          | left _ => String.prefix s1 s2
          | right _ => false
          end).
  destruct (ascii_dec a c) as [->|Hne].
  - by rewrite Ascii.eqb_refl.
  - by rewrite (proj2 (Ascii.eqb_neq a c) Hne).
Qed.

Lemma prefix_char a c s :
  String.prefix (String a "") (String c s) = Ascii.eqb a c.
Proof. rewrite prefix_cons. destruct s; by rewrite andb_true_r. Qed.

Lemma contains_char_nil a : PyStr.contains (String a "") "" = false.
Proof. reflexivity. Qed.

Lemma contains_char_cons a c s :
  PyStr.contains (String a "") (String c s)
  = Ascii.eqb a c || PyStr.contains (String a "") s.
Proof.
  change (PyStr.contains (String a "") (String c s))
    with (String.prefix (String a "") (String c s) || PyStr.contains (String a "") s).
  by rewrite prefix_char.
Qed.

Lemma contains_char_app a s t :
  PyStr.contains (String a "") (s +:+ t)
  = PyStr.contains (String a "") s || PyStr.contains (String a "") t.
Proof.
  induction s as [|c s IH].
  - by rewrite contains_char_nil.
  - change (String c s +:+ t) with (String c (s +:+ t)).
    rewrite !contains_char_cons, IH. by rewrite orb_assoc.
Qed.

Lemma replace_char_nil a b :
  PyStr.replace (String a "") (String b "") "" = ""%string.
Proof. reflexivity. Qed.

(** Replacing a character by a character works character by character. *)
Lemma replace_char_cons a b c s :
  PyStr.replace (String a "") (String b "") (String c s)
  = String (if Ascii.eqb a c then b else c)
           (PyStr.replace (String a "") (String b "") s).
Proof.
  unfold PyStr.replace. cbn [PyStr.replace_from]. rewrite prefix_char.
  by destruct (Ascii.eqb a c).
Qed.

Lemma replace_char_absent a b s :
  PyStr.contains (String a "") s = false ->
  PyStr.replace (String a "") (String b "") s = s.
Proof.
  induction s as [|c s IH]; [done|].
  rewrite contains_char_cons, replace_char_cons. intros H.
  apply orb_false_iff in H as [-> H]. by rewrite IH.
Qed.

Lemma replace_char_removes a b s :
  a <> b -> PyStr.contains (String a "") (PyStr.replace (String a "") (String b "") s) = false.
Proof.
  intros Hne. induction s as [|c s IH]; [done|].
  rewrite replace_char_cons, contains_char_cons, IH, orb_false_r.
  destruct (Ascii.eqb a c) eqn:Hac; [|done]. by apply Ascii.eqb_neq.
Qed.

Lemma replace_char_keeps_out x a b s :
  x <> b -> PyStr.contains (String x "") s = false ->
  PyStr.contains (String x "") (PyStr.replace (String a "") (String b "") s) = false.
Proof.
  intros Hne. induction s as [|c s IH]; [done|].
  rewrite replace_char_cons, !contains_char_cons. intros H.
  apply orb_false_iff in H as [Hxc H]. rewrite (IH H), orb_false_r.
  destruct (Ascii.eqb a c); [by apply Ascii.eqb_neq|done].
Qed.

(** Taking occurrences out of a string brings no character in. *)
Lemma erase_keeps_out x old k s :
  PyStr.contains (String x "") s = false ->
  PyStr.contains (String x "") (PyStr.replace_from old "" k s) = false.
Proof.
  revert k. induction s as [|c s IH]; intros k H; [done|].
  rewrite contains_char_cons in H. apply orb_false_iff in H as [Hxc H].
  cbn [PyStr.replace_from]. destruct k as [|k]; [|by apply IH].
  destruct (String.prefix old (String c s)).
  - cbn. by apply IH.
  - rewrite contains_char_cons, Hxc. by apply IH.
Qed.

Lemma erase_cache_suffix s :
  PyStr.contains "." s = false ->
  PyStr.replace ".cache" "" (s +:+ ".cache") = s.
Proof.
  unfold PyStr.replace. induction s as [|c s IH]; [done|].
  rewrite contains_char_cons. intros H. apply orb_false_iff in H as [Hc H].
  change (String c s +:+ ".cache") with (String c (s +:+ ".cache")).
  cbn [PyStr.replace_from].
  rewrite prefix_cons, Hc. cbn [andb]. by rewrite IH.
Qed.

Lemma slash_there_and_back s :
  PyStr.contains "_" s = false ->
  PyStr.replace "_" "/" (PyStr.replace "/" "_" s) = s.
Proof.
  induction s as [|c s IH]; [done|].
  rewrite contains_char_cons. intros H. apply orb_false_iff in H as [Hc H].
  rewrite !replace_char_cons, (IH H).
  destruct (Ascii.eqb "/" c) eqn:Hs.
  - apply Ascii.eqb_eq in Hs as <-. done.
  - by rewrite Hc.
Qed.

Lemma safe_key_chars key :
  Cache.safe_key key = true ->
  PyStr.contains "_" key = false /\ PyStr.contains "\" key = false
  /\ PyStr.contains ":" key = false /\ PyStr.contains "." key = false.
Proof.
  unfold Cache.safe_key. rewrite !andb_true_iff, !negb_true_iff. tauto.
Qed.

Lemma safe_key_filename key :
  Cache.safe_key key = true ->
  Cache._get_cache_filename key = (PyStr.replace "/" "_" key +:+ ".cache")%string.
Proof.
  intros (H1 & H2 & H3 & H4)%safe_key_chars. unfold Cache._get_cache_filename.
  rewrite (replace_char_absent "\"), (replace_char_absent ":"); try done.
  - by apply replace_char_keeps_out.
  - by apply replace_char_keeps_out.
Qed.

Lemma safe_key_decodes key :
  Cache.safe_key key = true ->
  Cache._get_key_from_filename (Cache._get_cache_filename key) = key.
Proof.
  intros Hsafe. rewrite (safe_key_filename key Hsafe).
  apply safe_key_chars in Hsafe as (H1 & H2 & H3 & H4).
  unfold Cache._get_key_from_filename.
  rewrite erase_cache_suffix by (by apply replace_char_keeps_out).
  by apply slash_there_and_back.
Qed.

(** X7. A key without underscore, backslash, colon and dot is read back from
    the name of its record file, and two such keys have different record
    files. *)
Theorem safe_key_round_trip key key' :
  Cache.safe_key key = true ->
  Cache._get_key_from_filename (Cache._get_cache_filename key) = key
  /\ (Cache.safe_key key' = true ->
      Cache._get_cache_filename key = Cache._get_cache_filename key' -> key = key').
Proof.
  intros Hsafe. split; [by apply safe_key_decodes|].
  intros Hsafe' Heq.
  rewrite <- (safe_key_decodes key Hsafe), <- (safe_key_decodes key' Hsafe').
  by rewrite Heq.
Qed.

Lemma safe_key_round_trip_witness :
  Cache._get_key_from_filename (Cache._get_cache_filename "games/730") = "games/730"%string.
Proof.
  refine (proj1 (safe_key_round_trip "games/730" "games/730" _)). reflexivity.
Defined.

(** No key that is read back from a file name has an underscore, and the
    key read back from the record name of a key has no backslash and no
    colon either. *)
Lemma key_from_filename_chars :
  (forall f, PyStr.contains "_" (Cache._get_key_from_filename f) = false)
  /\ forall key x,
       x = "\"%char \/ x = ":"%char ->
       PyStr.contains (String x "")
         (Cache._get_key_from_filename (Cache._get_cache_filename key)) = false.
Proof.
  split.
  - intros f. unfold Cache._get_key_from_filename. by apply replace_char_removes.
  - intros key x Hx. unfold Cache._get_key_from_filename, Cache._get_cache_filename.
    apply replace_char_keeps_out; [by destruct Hx as [->| ->]|].
    apply erase_keeps_out. rewrite contains_char_app.
    apply orb_false_iff. split; [|by destruct Hx as [->| ->]].
    destruct Hx as [->| ->].
    + apply replace_char_keeps_out; [done|]. by apply replace_char_removes.
    + by apply replace_char_removes.
Qed.

(** X8. A key with an underscore, a backslash or a colon is never read back
    from the name of its record file. *)
Theorem unsafe_key_never_read_back key :
  PyStr.contains "_" key || PyStr.contains "\" key || PyStr.contains ":" key = true ->
  Cache._get_key_from_filename (Cache._get_cache_filename key) <> key.
Proof.
  intros H Heq. destruct key_from_filename_chars as [Hu Hx].
  specialize (Hu (Cache._get_cache_filename key)).
  pose proof (Hx key "\"%char (or_introl eq_refl)) as Hb.
  pose proof (Hx key ":"%char (or_intror eq_refl)) as Hc.
  rewrite Heq in Hu, Hb, Hc. by rewrite Hu, Hb, Hc in H.
Qed.

Lemma unsafe_key_never_read_back_witness :
  Cache._get_key_from_filename (Cache._get_cache_filename "search_games_do")
  <> "search_games_do"%string.
Proof. apply (unsafe_key_never_read_back "search_games_do"). reflexivity. Defined.

(** ** The cache across a restart *)

Lemma string_length_app s t :
  String.length (s +:+ t) = (String.length s + String.length t)%nat.
Proof.
  induction s as [|c s IH]; [done|].
  change (String c s +:+ t) with (String c (s +:+ t)). cbn. by rewrite IH.
Qed.

Lemma drop_length_app s t : PyStr.drop (String.length s) (s +:+ t) = t.
Proof.
  induction s as [|c s IH]; [by destruct t|].
  change (String c s +:+ t) with (String c (s +:+ t)). cbn. exact IH.
Qed.

Lemma filename_endswith_cache key :
  PyStr.endswith (Cache._get_cache_filename key) ".cache" = true.
Proof.
  unfold Cache._get_cache_filename, PyStr.endswith.
  rewrite string_length_app. apply andb_true_iff. split.
  - apply Nat.leb_le. lia.
  - replace (String.length _ + String.length ".cache" - String.length ".cache")%nat
      with (String.length (PyStr.replace ":" "_" (PyStr.replace "\" "_"
                             (PyStr.replace "/" "_" key)))) by lia.
    rewrite drop_length_app. reflexivity.
Qed.

Section CachePersistence.

Context {V : Type}.
Implicit Types (c : Cache.t V) (dir : gmap string (Cache.entry V)).

(** A turn of the loading loop adds at most the key of its file. *)
Lemma load_file_memory c f n k e :
  Cache._memory_cache (Cache.load_file c (f, n)) !! k = Some e ->
  Cache._memory_cache c !! k = Some e \/ k = Cache._get_key_from_filename f.
Proof.
  unfold Cache.load_file. destruct (PyStr.endswith f ".cache"); [|by left].
  destruct (Cache.cache_dir c !! f) as [[[d ts] ttl]|]; [|by left].
  case_bool_decide; cbn; [|by left].
  destruct (decide (k = Cache._get_key_from_filename f)) as [->|Hne]; [by right|].
  rewrite lookup_insert_ne by done. by left.
Qed.

Lemma load_file_memory_other c f n k :
  Cache._get_key_from_filename f <> k ->
  Cache._memory_cache (Cache.load_file c (f, n)) !! k = Cache._memory_cache c !! k.
Proof.
  intros Hne. unfold Cache.load_file.
  destruct (PyStr.endswith f ".cache"); [|done].
  destruct (Cache.cache_dir c !! f) as [[[d ts] ttl]|]; [|done].
  case_bool_decide; cbn; [|done]. by rewrite lookup_insert_ne.
Qed.

Lemma load_file_dir_other c f n f' :
  f <> f' ->
  Cache.cache_dir (Cache.load_file c (f, n)) !! f' = Cache.cache_dir c !! f'.
Proof.
  intros Hne. unfold Cache.load_file.
  destruct (PyStr.endswith f ".cache"); [|done].
  destruct (Cache.cache_dir c !! f) as [[[d ts] ttl]|]; [|done].
  case_bool_decide; cbn; [done|]. by rewrite lookup_delete_ne.
Qed.

Lemma load_no_underscore listing c :
  (forall k, is_Some (Cache._memory_cache c !! k) -> PyStr.contains "_" k = false) ->
  forall k, is_Some (Cache._memory_cache (Cache._load_from_disk listing c) !! k) ->
            PyStr.contains "_" k = false.
Proof.
  unfold Cache._load_from_disk. revert c.
  induction listing as [|[f n] listing IH]; intros c Hc; [done|].
  cbn [fold_left]. apply IH. intros k [e Hk].
  apply load_file_memory in Hk as [Hk| ->]; [by eauto|].
  apply (proj1 key_from_filename_chars).
Qed.

(** X9. A cache that has just been constructed holds no key with an
    underscore, whatever its directory holds: such a key reads as absent
    after a restart. *)
Theorem underscore_key_lost_at_restart default dir write listing k :
  PyStr.contains "_" k = true ->
  forall now,
    Cache.get now k (Cache.__init__ default dir write listing)
    = (Cache.PyNone, Cache.__init__ default dir write listing).
Proof.
  intros Hk now. apply get_absent.
  destruct (Cache._memory_cache (Cache.__init__ default dir write listing) !! k) eqn:E;
    [|done].
  exfalso. unfold Cache.__init__ in E.
  assert (PyStr.contains "_" k = false) as Hf; [|by rewrite Hf in Hk].
  eapply (load_no_underscore listing); [|by eauto].
  intros k' [e Hk']. cbn in Hk'. by rewrite lookup_empty in Hk'.
Qed.

Lemma load_dir_unlisted listing c f :
  f ∉ listing.*1 ->
  Cache.cache_dir (Cache._load_from_disk listing c) !! f = Cache.cache_dir c !! f.
Proof.
  unfold Cache._load_from_disk. revert c.
  induction listing as [|[f' n] listing IH]; intros c Hf; [done|].
  cbn [fold_left]. rewrite IH.
  - apply load_file_dir_other. intros ->. apply Hf. cbn. by left.
  - intros Hin. apply Hf. cbn. by right.
Qed.

Lemma load_memory_others listing c k :
  (forall f n, (f, n) ∈ listing -> Cache._get_key_from_filename f <> k) ->
  Cache._memory_cache (Cache._load_from_disk listing c) !! k
  = Cache._memory_cache c !! k.
Proof.
  unfold Cache._load_from_disk. revert c.
  induction listing as [|[f' n] listing IH]; intros c Hf; [done|].
  cbn [fold_left]. rewrite IH.
  - apply load_file_memory_other. apply (Hf f' n). by left.
  - intros f0 n0 Hin. apply (Hf f0 n0). by right.
Qed.

(** The record of a live entry is loaded under the key of its file. *)
Lemma load_file_live c f n d ts ttl :
  PyStr.endswith f ".cache" = true ->
  Cache.cache_dir c !! f = Some (d, ts, ttl) -> n - ts <= ttl ->
  Cache._memory_cache (Cache.load_file c (f, n)) !! Cache._get_key_from_filename f
  = Some (d, ts, ttl).
Proof.
  intros He Hf Hl. unfold Cache.load_file. rewrite He, Hf.
  rewrite bool_decide_eq_true_2 by done. cbn. apply lookup_insert_eq.
Qed.

(** What [set] leaves in the directory: the record when it is written, what
    was there when the file is not opened, nothing that can be read back
    when the dump fails. The dict holds the entry in every case. *)
Lemma set_write_outcomes now k (v : Cache.pyobj V) t c :
  let f := Cache._get_cache_filename k in
  let c1 := Cache.set now k v (Some t) c in
  Cache._memory_cache c1 !! k = Some (v, now, t)
  /\ Cache.cache_dir c1 !! f
     = match Cache.disk_write c f (v, now, t) with
       | Cache.Written => Some (v, now, t)
       | Cache.NotOpened => Cache.cache_dir c !! f
       | Cache.Truncated => None
       end
  /\ (forall f', f' <> f -> Cache.cache_dir c1 !! f' = Cache.cache_dir c !! f').
Proof.
  cbn zeta. unfold Cache.set, Cache._save_to_disk. cbn. split_and!.
  - apply lookup_insert_eq.
  - destruct (Cache.disk_write c _ _);
      [apply lookup_insert_eq|done|apply lookup_delete_eq].
  - intros f' Hne. destruct (Cache.disk_write c _ _);
      [by rewrite lookup_insert_ne|done|by rewrite lookup_delete_ne].
Qed.

(** X10. The persistence round trip. A value is stored under a safe key
    and the write of its record succeeds; the cache is constructed again
    on the directory, which lists no name twice and only record names of
    safe keys, and tests the record within the TTL: a [get] within the TTL
    returns the value. *)
Theorem safe_key_survives_restart c0 now k (v : Cache.pyobj V) t
    default write listing now_load now_get :
  Cache.safe_key k = true ->
  Cache.disk_write c0 (Cache._get_cache_filename k) (v, now, t) = Cache.Written ->
  NoDup listing.*1 ->
  (forall f n, (f, n) ∈ listing ->
     exists k', Cache.safe_key k' = true /\ f = Cache._get_cache_filename k') ->
  (Cache._get_cache_filename k, now_load) ∈ listing ->
  now_load - now <= t -> now_get - now <= t ->
  (Cache.get now_get k
     (Cache.__init__ default (Cache.cache_dir (Cache.set now k v (Some t) c0))
                     write listing)).1 = v.
Proof.
  intros Hsafe Hwritten Hnd Hnames Hin Hload Hget.
  set (f := Cache._get_cache_filename k) in *.
  set (dir := Cache.cache_dir (Cache.set now k v (Some t) c0)).
  assert (Hdir : dir !! f = Some (v, now, t)).
  { subst dir. unfold Cache.set, Cache._save_to_disk. cbn. fold f.
    rewrite Hwritten. apply lookup_insert_eq. }
  assert (Hkey : Cache._get_key_from_filename f = k)
    by (by apply safe_key_decodes).
  apply list_elem_of_split in Hin as (l1 & l2 & ->).
  rewrite fmap_app, fmap_cons in Hnd. cbn in Hnd.
  apply NoDup_app in Hnd as (_ & Hl1 & Hnd). apply NoDup_cons in Hnd as [Hl2 _].
  assert (Hother : forall f' n, (f', n) ∈ l1 ++ l2 -> f' <> f ->
                     Cache._get_key_from_filename f' <> k).
  { intros f' n Hin Hne Hk.
    destruct (Hnames f' n) as (k' & Hs' & ->).
    { apply elem_of_app in Hin as [Hin|Hin]; apply elem_of_app; [by left|].
      right. by right. }
    rewrite safe_key_decodes in Hk by done. by subst k'. }
  assert (Hmem : Cache._memory_cache
                   (Cache.__init__ default dir write (l1 ++ (f, now_load) :: l2)) !! k
                 = Some (v, now, t)).
  { unfold Cache.__init__, Cache._load_from_disk.
    rewrite fold_left_app. cbn [fold_left].
    fold (Cache._load_from_disk l1 (Cache.mk default ∅ dir write)).
    fold (Cache._load_from_disk l2
            (Cache.load_file (Cache._load_from_disk l1 (Cache.mk default ∅ dir write))
                             (f, now_load))).
    rewrite load_memory_others.
    - rewrite <- Hkey. apply load_file_live; [apply filename_endswith_cache| |done].
      rewrite load_dir_unlisted; [done|]. intros Hf. by apply (Hl1 f Hf); left.
    - intros f' n Hf'. apply (Hother f' n); [apply elem_of_app; by right|].
      intros ->. apply Hl2. apply list_elem_of_fmap. by exists (f, n). }
  by erewrite get_live.
Qed.

(** X11. Two keys with one record name: the second [set], when its write
    succeeds, overwrites the record of the first key, and deleting the
    second key removes the record while the first key is still in the
    dict, whatever became of the writes. *)
Theorem colliding_keys_share_record c k1 k2 n1 n2 (v1 v2 : Cache.pyobj V) t1 t2 :
  k1 <> k2 -> Cache._get_cache_filename k1 = Cache._get_cache_filename k2 ->
  let c2 := Cache.set n2 k2 v2 (Some t2) (Cache.set n1 k1 v1 (Some t1) c) in
  let c3 := (Cache.delete k2 c2).2 in
  (Cache.disk_write c (Cache._get_cache_filename k2) (v2, n2, t2) = Cache.Written ->
   Cache.cache_dir c2 !! Cache._get_cache_filename k1 = Some (v2, n2, t2))
  /\ Cache._memory_cache c3 !! k1 = Some (v1, n1, t1)
  /\ Cache.cache_dir c3 !! Cache._get_cache_filename k1 = None.
Proof.
  intros Hne Hf c2 c3. subst c3 c2. split_and!.
  - intros Hw. unfold Cache.set, Cache._save_to_disk. cbn. rewrite Hw, Hf.
    apply lookup_insert_eq.
  - rewrite delete_memory, lookup_delete_ne by done.
    rewrite set_lookup_ne by done. apply set_lookup.
  - unfold Cache.delete. rewrite set_lookup. cbn. rewrite Hf.
    apply lookup_delete_eq.
Qed.

End CachePersistence.

Lemma underscore_key_lost_at_restart_witness :
  (Cache.get 101 "popular_games_list"
     (Cache.__init__ 3600
        (Cache.cache_dir (Cache.set 100 "popular_games_list" (Cache.PyVal 7)
                            (Some 3600) (Cache.empty 3600)))
        (fun _ _ => Cache.Written)
        [("popular_games_list.cache"%string, 101)])).1
  = @Cache.PyNone Z.
Proof.
  refine (f_equal fst (underscore_key_lost_at_restart 3600 _ _ _ "popular_games_list" _ 101)).
  reflexivity.
Defined.

Lemma safe_key_survives_restart_witness :
  (Cache.get 103 "games/730"
     (Cache.__init__ 3600
        (Cache.cache_dir (Cache.set 100 "games/730" (Cache.PyVal 7) (Some 5)
                            (Cache.empty 3600)))
        (fun _ _ => Cache.Written)
        [("games_730.cache"%string, 102)])).1
  = Cache.PyVal 7.
Proof.
  apply (safe_key_survives_restart (Cache.empty 3600) 100 "games/730" (Cache.PyVal 7) 5
           3600 (fun _ _ => Cache.Written) [("games_730.cache"%string, 102)] 102 103).
  - reflexivity.
  - reflexivity.
  - apply (bool_decide_unpack _). vm_compute. exact I.
  - intros f n Hin. apply list_elem_of_singleton in Hin. inversion Hin; subst.
    exists "games/730"%string. split; reflexivity.
  - apply list_elem_of_singleton. reflexivity.
  - lia.
  - lia.
Defined.

Lemma colliding_keys_share_record_witness :
  Cache._memory_cache
    (Cache.delete "a:b"
       (Cache.set 2 "a:b" (Cache.PyVal 8) (Some 60)
          (Cache.set 1 "a/b" (Cache.PyVal 7) (Some 60) (Cache.empty 3600)))).2
  !! "a/b"%string = Some (Cache.PyVal 7, 1, 60).
Proof.
  refine (proj1 (proj2 (colliding_keys_share_record (Cache.empty 3600)
            "a/b" "a:b" 1 2 (Cache.PyVal 7) (Cache.PyVal 8) 60 60 _ _))).
  - discriminate.
  - reflexivity.
Defined.

(** ** The download coordinator: requests, limits and turns *)

Lemma start_download_fields it dir s :
  max_concurrent_downloads (start_download it dir s).2 = max_concurrent_downloads s
  /\ files (start_download it dir s).2 = files s.
Proof.
  unfold start_download. destruct (_get_download_url it); [|done].
  repeat case_bool_decide; done.
Qed.

Lemma start_next_fields s :
  max_concurrent_downloads (_start_next_download s) = max_concurrent_downloads s
  /\ files (_start_next_download s) = files s.
Proof.
  unfold _start_next_download. destruct (download_queue s) as [|[it dir] rest]; [done|].
  case_bool_decide; [|done].
  destruct (start_download_fields it dir (set_queue rest s)) as [-> ->]. done.
Qed.

Lemma on_finished_fields key fp s :
  max_concurrent_downloads (_on_download_finished key fp s) = max_concurrent_downloads s
  /\ files (_on_download_finished key fp s) = files s.
Proof.
  unfold _on_download_finished.
  destruct (start_next_fields (emit (download_finished key fp) (remove_active key s)))
    as [Hm Hf].
  destruct (_ && _); cbn; by rewrite ?Hm, ?Hf.
Qed.

Lemma on_error_fields key msg s :
  max_concurrent_downloads (_on_download_error key msg s) = max_concurrent_downloads s
  /\ files (_on_download_error key msg s) = files s.
Proof.
  unfold _on_download_error.
  by destruct (start_next_fields (emit (download_error key msg) (remove_active key s)))
    as [-> ->].
Qed.

(** X12. [start_download] accepts exactly the requests that have a download URL
    and whose destination is not in the active set. An accepted request is
    started when there is a free slot and is put at the end of the queue
    otherwise; a rejected one changes nothing but the log, where one
    [download_error] is added. *)
Theorem start_download_accepts it dir s :
  let r := start_download it dir s in
  (r.1 = true <->
   is_Some (_get_download_url it) /\ dest (it, dir) ∉ dom (active_downloads s))
  /\ (r.1 = true -> active_count s < max_concurrent_downloads s ->
      download_queue r.2 = download_queue s
      /\ (exists th, active_downloads r.2 = <[dest (it, dir) := th]> (active_downloads s)
                     /\ is_cancelled th = false /\ file_path th = dest (it, dir))
      /\ events r.2 = events s ++ [download_started (dest (it, dir)) it])
  /\ (r.1 = true -> active_count s >= max_concurrent_downloads s ->
      download_queue r.2 = download_queue s ++ [(it, dir)]
      /\ active_downloads r.2 = active_downloads s
      /\ events r.2 = events s)
  /\ (r.1 = false ->
      download_queue r.2 = download_queue s
      /\ active_downloads r.2 = active_downloads s
      /\ exists path message, events r.2 = events s ++ [download_error path message]).
Proof.
  intros r. subst r. unfold start_download, dest. cbn [fst snd].
  destruct (_get_download_url it) as [u|].
  - case_bool_decide as Hact; [|case_bool_decide as Hfull]; cbn.
    + split_and!; try done.
      * split; [done|]. by intros [_ Hn].
      * intros _. split_and!; try done. eauto.
    + split_and!; try done; try (intros; lia).
    + split_and!; try done; try (intros; lia).
      intros _ _. split_and!; try done. eexists. split_and!; done.
  - cbn. split_and!; try done.
    + split; [done|]. by intros [[x Hx] _].
    + intros _. split_and!; try done. eauto.
Qed.

(** X13. Whatever is called and whatever the threads do, the number of active
    transfers never exceeds the limit the manager was created with. *)
Theorem active_never_exceeds_limit M calls :
  let s := fold_left exec calls (init M) in
  max_concurrent_downloads s = M /\ active_count s <= Z.max 0 M.
Proof.
  cbn zeta.
  assert (Hinit : max_concurrent_downloads (init M) = M
                  /\ active_count (init M) <= Z.max 0 M).
  { unfold init, active_count. cbn. rewrite map_size_empty. lia. }
  revert Hinit. generalize (init M). induction calls as [|c calls IH]; intros s Hs; [done|].
  cbn [fold_left]. apply IH. clear IH calls. destruct Hs as [Hmax Hsize].
  assert (Hstart : forall it dir s0,
            max_concurrent_downloads s0 = M -> active_count s0 <= Z.max 0 M ->
            active_count (start_download it dir s0).2 <= Z.max 0 M).
  { intros it dir s0 Hm Hsz. unfold start_download.
    destruct (_get_download_url it); [|done].
    repeat case_bool_decide; try done.
    unfold active_count in *. cbn.
    pose proof (map_size_insert (path_join dir (_generate_filename it))
                  (mkThread s1 (path_join dir (_generate_filename it)) it false 0 false)
                  (active_downloads s0)) as Hi.
    destruct (active_downloads s0 !! _); unfold id in Hi; lia. }
  assert (Hremove : forall key s0, active_count (remove_active key s0) <= active_count s0).
  { intros key s0. unfold active_count. cbn.
    pose proof (map_size_delete key (active_downloads s0)) as Hd.
    destruct (active_downloads s0 !! key); unfold id in Hd; lia. }
  assert (Hnext : forall s0,
            max_concurrent_downloads s0 = M -> active_count s0 <= Z.max 0 M ->
            active_count (_start_next_download s0) <= Z.max 0 M).
  { intros s0 Hm Hsz. unfold _start_next_download.
    destruct (download_queue s0) as [|[it dir] rest]; [done|].
    case_bool_decide; [|done]. by apply Hstart. }
  assert (Hput : forall key th th' s0,
            active_downloads s0 !! key = Some th ->
            active_count (put_thread key th' s0) = active_count s0).
  { intros key th th' s0 Hk. unfold active_count. cbn.
    by rewrite map_size_insert_Some. }
  destruct c as [it dir|path| | |key|key total i]; cbn [exec].
  - split; [by rewrite (proj1 (start_download_fields it dir s))|by apply Hstart].
  - unfold cancel_download. destruct (active_downloads s !! path) eqn:Hk; [|done].
    split; [done|]. cbn. fold (put_thread path (cancel d) s).
    by rewrite (Hput path d).
  - split; [done|]. unfold cancel_all_downloads, active_count in *. cbn.
    by rewrite map_size_fmap.
  - split.
    + unfold clear_completed_downloads.
      generalize ((List.filter (fun kv => returned kv.2)
                     (map_to_list (active_downloads s))).*1).
      intros ks. revert s Hmax Hsize. induction ks as [|k ks IHk]; intros s Hmax Hsize;
        [done|]. cbn. by apply IHk; [|specialize (Hremove k s); lia].
    + unfold clear_completed_downloads.
      generalize ((List.filter (fun kv => returned kv.2)
                     (map_to_list (active_downloads s))).*1).
      intros ks. revert s Hmax Hsize. induction ks as [|k ks IHk]; intros s Hmax Hsize;
        [done|]. cbn. by apply IHk; [|specialize (Hremove k s); lia].
  - unfold thread_open. destruct (active_downloads s !! key); [|done].
    by destruct (returned d).
  - rewrite thread_step_unfold. destruct (active_downloads s !! key) as [th|] eqn:Hk; [|done].
    destruct (returned th); [done|].
    destruct i as [n| |message].
    + destruct (is_cancelled th).
      * split; [done|].
        by rewrite (Hput key th _ (set_files (delete (file_path th) (files s)) s)).
      * case_bool_decide; [|done]. split; [done|].
        change (active_count (emit _ ?x)) with (active_count x).
        by rewrite (Hput key th _ (set_files _ s)).
    + pose proof (Hput key th (return_thread th (downloaded_size th)) s Hk) as Hp.
      destruct (is_cancelled th); [split; [done|lia]|].
      split; [by rewrite (proj1 (on_finished_fields _ _ _))|].
      unfold _on_download_finished.
      set (s1 := emit _ (remove_active key _)).
      assert (active_count (_start_next_download s1) <= Z.max 0 M).
      { apply Hnext; [done|]. subst s1.
        change (active_count (emit _ ?x)) with (active_count x).
        specialize (Hremove key (put_thread key (return_thread th (downloaded_size th)) s)).
        lia. }
      by destruct (_ && _).
    + pose proof (Hput key th (return_thread th (downloaded_size th)) s Hk) as Hp.
      destruct (is_cancelled th); [split; [done|lia]|].
      split; [by rewrite (proj1 (on_error_fields _ _ _))|].
      unfold _on_download_error. apply Hnext; [done|].
      change (active_count (emit _ ?x)) with (active_count x).
      specialize (Hremove key (put_thread key (return_thread th (downloaded_size th)) s)).
      lia.
Qed.

(** *** Cancelling everything *)




(** Three transfers, one signal waiting when everything is cancelled: the
    signal is still delivered, and the turns that follow add nothing. *)
Example cancel_all_downloads_waiting_signal :
  let s := starts demo_requests (init 3) in
  let a := fold_left loop_exec
             [Turn "/dl/Map_1_1.zip" 100 (Chunk 10)] (s, []) in
  let b := fold_left loop_exec
             [Turn "/dl/Map_1_1.zip" 100 (Chunk 10); Deliver;
              Turn "/dl/Map_2_2.zip" 100 EndOfStream; Deliver]%string
             (cancel_all_downloads a.1, a.2) in
  a.2 = [("/dl/Map_1_1.zip"%string, progress_updated 10 100)]
  /\ events b.1 = events s ++ [download_progress "/dl/Map_1_1.zip" 10 100]
  /\ b.2 = [].
Proof. vm_compute. repeat split. Qed.

(** *** Changing the limit *)

Lemma start_next_pops s x rest :
  download_queue s = x :: rest ->
  active_count s < max_concurrent_downloads s ->
  download_queue (_start_next_download s) = rest.
Proof.
  intros Hq Hfree. unfold _start_next_download. rewrite Hq. destruct x as [it dir].
  rewrite bool_decide_eq_true_2 by done.
  unfold start_download. destruct (_get_download_url it); [|done].
  case_bool_decide; [done|].
  rewrite bool_decide_eq_false_2; [done|].
  unfold active_count in *. cbn. lia.
Qed.

Lemma start_queued_exits fuel s :
  (length (download_queue s) <= fuel)%nat ->
  let s' := start_queued fuel s in
  max_concurrent_downloads s' = max_concurrent_downloads s
  /\ (download_queue s' = [] \/ active_count s' >= max_concurrent_downloads s').
Proof.
  revert s. induction fuel as [|fuel IH]; intros s Hlen; cbn zeta.
  - cbn. split; [done|]. left. destruct (download_queue s); [done|cbn in Hlen; lia].
  - cbn [start_queued]. case_bool_decide as Hfree; cbn [andb].
    + case_bool_decide as Hq; cbn [negb]; [by eauto|].
      destruct (download_queue s) as [|x rest] eqn:Hqs; [done|].
      pose proof (start_next_pops s x rest Hqs Hfree) as Hpop.
      destruct (IH (_start_next_download s)) as [Hm Hexit].
      { rewrite Hpop. cbn in Hlen. lia. }
      split; [rewrite Hm; apply start_next_fields|exact Hexit].
    + split; [done|]. right. lia.
Qed.

(** X15. [set_max_concurrent_downloads] ignores a limit that is not positive.
    With a positive limit it stops with the limit set and with an empty
    queue or no free slot: the loop has run to its end. *)
Theorem set_max_concurrent_downloads_fills max_downloads s :
  let s' := set_max_concurrent_downloads max_downloads s in
  (max_downloads <= 0 -> s' = s)
  /\ (max_downloads > 0 ->
      max_concurrent_downloads s' = max_downloads
      /\ (download_queue s' = [] \/ active_count s' >= max_downloads)).
Proof.
  intros s'. subst s'. unfold set_max_concurrent_downloads. split.
  - intros Hle. by rewrite bool_decide_eq_false_2 by lia.
  - intros Hpos. rewrite bool_decide_eq_true_2 by done. cbn.
    destruct (start_queued_exits (length (download_queue s))
                (mk (active_downloads s) (download_queue s) max_downloads
                    (files s) (events s))) as [Hm Hexit]; [done|].
    cbn in Hm. rewrite Hm in Hexit. done.
Qed.

Lemma set_max_concurrent_downloads_fills_witness :
  download_queue (set_max_concurrent_downloads 4 (starts demo_requests (init 3))) = []
  \/ active_count (set_max_concurrent_downloads 4 (starts demo_requests (init 3))) >= 4.
Proof.
  refine (proj2 (proj2 (set_max_concurrent_downloads_fills 4
                          (starts demo_requests (init 3))) _)).
  lia.
Defined.

(** *** Finished threads, files and signals *)

Lemma fold_delete_lookup {A : Type} ks (m : gmap string A) j :
  fold_left (fun m k => delete k m) ks m !! j
  = if decide (j ∈ ks) then None else m !! j.
Proof.
  revert m. induction ks as [|k ks IH]; intros m.
  - destruct (decide (j ∈ [])) as [H|H]; [by apply elem_of_nil in H|done].
  - cbn [fold_left]. rewrite IH.
    destruct (decide (j ∈ ks)) as [H|H], (decide (j ∈ k :: ks)) as [H'|H'];
      try done.
    + exfalso. apply H'. by right.
    + apply elem_of_cons in H' as [->|H']; [apply lookup_delete_eq|done].
    + apply lookup_delete_ne. intros ->. apply H'. by left.
Qed.

Lemma fold_remove_active ks s :
  let s' := fold_left (fun s file_path => remove_active file_path s) ks s in
  active_downloads s' = fold_left (fun m k => delete k m) ks (active_downloads s)
  /\ download_queue s' = download_queue s /\ events s' = events s
  /\ files s' = files s.
Proof.
  revert s. induction ks as [|k ks IH]; intros s; [done|].
  cbn [fold_left]. destruct (IH (remove_active k s)) as (H1 & H2 & H3 & H4).
  cbn zeta. by rewrite H1, H2, H3, H4.
Qed.

(** X16. [clear_completed_downloads] removes exactly the threads that have
    returned, a cancelled one among them, and keeps the others; it starts
    nothing from the queue and emits nothing. *)
Theorem clear_completed_downloads_exact s :
  let s' := clear_completed_downloads s in
  (forall key,
     active_downloads s' !! key
     = match active_downloads s !! key with
       | Some th => if returned th then None else Some th
       | None => None
       end)
  /\ download_queue s' = download_queue s
  /\ events s' = events s
  /\ files s' = files s.
Proof.
  intros s'. subst s'. unfold clear_completed_downloads.
  set (ks := (List.filter (fun kv => returned kv.2)
                (map_to_list (active_downloads s))).*1).
  destruct (fold_remove_active ks s) as (Ha & Hq & He & Hf). cbn zeta in *.
  split_and!; try done.
  intros key. rewrite Ha, fold_delete_lookup.
  assert (Hin : key ∈ ks <->
            exists th, active_downloads s !! key = Some th /\ returned th = true).
  { subst ks. rewrite list_elem_of_fmap. split.
    - intros [[k th] [-> Hk]]. apply list_elem_of_In, filter_In in Hk as [Hk Hr].
      apply list_elem_of_In, elem_of_map_to_list in Hk. eauto.
    - intros [th [Hk Hr]]. exists (key, th). split; [done|].
      apply list_elem_of_In, filter_In. split; [|done].
      by apply list_elem_of_In, elem_of_map_to_list. }
  destruct (decide (key ∈ ks)) as [Hk|Hk].
  - apply Hin in Hk as [th [-> ->]]. done.
  - destruct (active_downloads s !! key) as [th|] eqn:Hth; [|done].
    destruct (returned th) eqn:Hr; [|done]. exfalso. apply Hk, Hin. eauto.
Qed.

(** X17. A file disappears in one way only: the loop of a cancelled thread
    takes a turn on a chunk. No call of the manager, no completion and no
    failure removes a file. *)
Theorem only_cancelled_turn_removes_file s c path size :
  files s !! path = Some size -> files (exec s c) !! path = None ->
  exists key total n th,
    c = ThreadStep key total (Chunk n)
    /\ active_downloads s !! key = Some th
    /\ is_cancelled th = true /\ returned th = false /\ file_path th = path.
Proof.
  intros Hf Hgone.
  destruct c as [it dir|p| | |key|key total i]; cbn [exec] in Hgone.
  - rewrite (proj2 (start_download_fields it dir s)) in Hgone. congruence.
  - unfold cancel_download in Hgone. destruct (active_downloads s !! p); cbn in Hgone;
      congruence.
  - cbn in Hgone. congruence.
  - unfold clear_completed_downloads in Hgone.
    rewrite (proj2 (proj2 (proj2 (fold_remove_active _ s)))) in Hgone.
    congruence.
  - unfold thread_open in Hgone. destruct (active_downloads s !! key) as [th|]; [|congruence].
    destruct (returned th); [congruence|]. cbn in Hgone.
    destruct (decide (file_path th = path)) as [<-|Hne].
    + by rewrite lookup_insert_eq in Hgone.
    + rewrite lookup_insert_ne in Hgone by done. congruence.
  - rewrite thread_step_unfold in Hgone.
    destruct (active_downloads s !! key) as [th|] eqn:Hk; [|congruence].
    destruct (returned th) eqn:Hr; [congruence|].
    destruct i as [n| |message].
    + destruct (is_cancelled th) eqn:Hc.
      * cbn in Hgone. destruct (decide (file_path th = path)) as [Hp|Hne].
        -- exists key, total, n, th. done.
        -- rewrite lookup_delete_ne in Hgone by done. congruence.
      * case_bool_decide; [|congruence]. cbn in Hgone.
        destruct (decide (file_path th = path)) as [<-|Hne].
        -- by rewrite lookup_insert_eq in Hgone.
        -- rewrite lookup_insert_ne in Hgone by done. congruence.
    + destruct (is_cancelled th); [cbn in Hgone; congruence|].
      rewrite (proj2 (on_finished_fields _ _ _)) in Hgone. cbn in Hgone. congruence.
    + destruct (is_cancelled th); [cbn in Hgone; congruence|].
      rewrite (proj2 (on_error_fields _ _ _)) in Hgone. cbn in Hgone. congruence.
Qed.

Lemma only_cancelled_turn_removes_file_witness :
  let s := (cancel_download "/dl/Mod_TestName_42.zip"
              (thread_step "/dl/Mod_TestName_42.zip" 20000 (Chunk 8192)
                 (thread_open "/dl/Mod_TestName_42.zip"
                    (start_download scenario_item "/dl" (init 3)).2))).2 in
  exists key total n th,
    ThreadStep "/dl/Mod_TestName_42.zip" 20000 (Chunk 8192)
    = ThreadStep key total (Chunk n)
    /\ active_downloads s !! key = Some th
    /\ is_cancelled th = true /\ returned th = false
    /\ file_path th = "/dl/Mod_TestName_42.zip"%string.
Proof.
  intros s.
  apply (only_cancelled_turn_removes_file s
           (ThreadStep "/dl/Mod_TestName_42.zip" 20000 (Chunk 8192))
           "/dl/Mod_TestName_42.zip" 8192).
  - vm_compute. reflexivity.
  - vm_compute. reflexivity.
Defined.

(** *** A transfer from its first chunk to its end *)

Lemma chunk_step key total n s th :
  active_downloads s !! key = Some th ->
  is_cancelled th = false -> returned th = false ->
  thread_step key total (Chunk n) s
  = if bool_decide (n > 0)
    then emit (download_progress key (int32 (downloaded_size th + n)) (int32 total))
           (put_thread key (progress_thread th (downloaded_size th + n))
              (set_files (<[file_path th := downloaded_size th + n]> (files s)) s))
    else s.
Proof. intros Hk Hc Hr. rewrite thread_step_unfold. by rewrite Hk, Hr, Hc. Qed.

Lemma written_ge from chunks : from <= written from chunks.
Proof.
  unfold written. revert from.
  induction chunks as [|x l IH]; intros from; cbn [fold_left]; [lia|].
  case_bool_decide; [|apply IH]. specialize (IH (from + x)). lia.
Qed.

Lemma running_sizes_events key total chunks : forall s th,
  active_downloads s !! key = Some th ->
  is_cancelled th = false -> returned th = false ->
  events (run_chunks key total chunks s)
  = events s ++ ((fun d => download_progress key (int32 d) (int32 total))
                 <$> running_sizes (downloaded_size th) chunks)
  /\ active_downloads (run_chunks key total chunks s)
     = <[key := progress_thread th (written (downloaded_size th) chunks)]>
         (active_downloads s)
  /\ (forall d, files s !! file_path th = Some d ->
        files (run_chunks key total chunks s) !! file_path th
        = Some (if bool_decide (written (downloaded_size th) chunks = downloaded_size th)
                then d else written (downloaded_size th) chunks))
  /\ download_queue (run_chunks key total chunks s) = download_queue s.
Proof.
  induction chunks as [|n chunks IH]; intros s th Hk Hc Hr.
  - cbn. rewrite app_nil_r. split_and!; try done.
    + symmetry. apply insert_id. rewrite Hk. by destruct th; cbn in *; subst.
    + intros d Hd. by rewrite bool_decide_eq_true_2.
  - change (run_chunks key total (n :: chunks) s)
      with (run_chunks key total chunks (thread_step key total (Chunk n) s)).
    rewrite (chunk_step key total n s th Hk Hc Hr).
    cbn [running_sizes]. unfold written. cbn [fold_left].
    case_bool_decide as Hn.
    + set (d1 := downloaded_size th + n).
      fold (written d1 chunks).
      set (s1 := emit _ _).
      assert (Hk1 : active_downloads s1 !! key = Some (progress_thread th d1)).
      { subst s1. cbn. apply lookup_insert_eq. }
      destruct (IH s1 (progress_thread th d1) Hk1 Hc Hr) as (H1 & H2 & H3 & H4).
      change (downloaded_size (progress_thread th d1)) with d1 in *.
      change (file_path (progress_thread th d1)) with (file_path th) in H3.
      rewrite H1, H2, H4.
      split_and!.
      * subst s1. cbn. by rewrite <- app_assoc.
      * subst s1. cbn. by rewrite insert_insert_eq.
      * intros d Hd.
        rewrite (H3 d1) by (subst s1; cbn; apply lookup_insert_eq).
        pose proof (written_ge d1 chunks).
        repeat case_bool_decide; try done; f_equal; subst d1; lia.
      * done.
    + fold (written (downloaded_size th) chunks). by apply IH.
Qed.

(** [start_download] and [_start_next_download] only add to the log. *)
Lemma start_download_events it dir s :
  exists evs, events (start_download it dir s).2 = events s ++ evs.
Proof.
  unfold start_download. destruct (_get_download_url it); [|by eexists].
  case_bool_decide; [by eexists|].
  case_bool_decide; [exists []; cbn; by rewrite app_nil_r|by eexists].
Qed.

Lemma start_next_events s :
  exists evs, events (_start_next_download s) = events s ++ evs.
Proof.
  unfold _start_next_download. destruct (download_queue s) as [|[it dir] rest].
  - exists []. by rewrite app_nil_r.
  - case_bool_decide.
    + apply (start_download_events it dir (set_queue rest s)).
    + exists []. by rewrite app_nil_r.
Qed.

Lemma running_sizes_sorted from chunks :
  StronglySorted Z.lt (running_sizes from chunks)
  /\ Forall (Z.lt from) (running_sizes from chunks).
Proof.
  revert from. induction chunks as [|x l IH]; intros from; cbn [running_sizes].
  - split; constructor.
  - case_bool_decide as Hx; [|apply IH].
    destruct (IH (from + x)) as [Hs Hall]. split.
    + by constructor.
    + constructor; [lia|]. eapply Forall_impl; [exact Hall|]. cbn. lia.
Qed.

Lemma running_sizes_bounds from chunks :
  Forall (fun d => from < d <= written from chunks) (running_sizes from chunks).
Proof.
  revert from. induction chunks as [|x l IH]; intros from; cbn [running_sizes].
  - constructor.
  - unfold written. cbn [fold_left]. case_bool_decide as Hx; [|apply IH].
    fold (written (from + x) l). constructor.
    + pose proof (written_ge (from + x) l). lia.
    + eapply Forall_impl; [apply IH|]. cbn. lia.
Qed.

(** The turns over the chunks, seen from the event loop: every signal
    waits there, in the order of its emission, and the manager has emitted
    nothing. *)
Lemma chunk_turn key total n s th :
  active_downloads s !! key = Some th ->
  is_cancelled th = false -> returned th = false ->
  run_turn key total (Chunk n) s
  = if bool_decide (n > 0)
    then (put_thread key (progress_thread th (downloaded_size th + n))
            (set_files (<[file_path th := downloaded_size th + n]> (files s)) s),
          Some (progress_updated (int32 (downloaded_size th + n)) (int32 total)))
    else (s, None).
Proof. intros Hk Hc Hr. unfold run_turn. by rewrite Hk, Hr, Hc. Qed.

Lemma running_sizes_posted key total chunks : forall s th w,
  active_downloads s !! key = Some th ->
  is_cancelled th = false -> returned th = false ->
  let a := fold_left loop_exec ((fun n => Turn key total (Chunk n)) <$> chunks) (s, w) in
  a.2 = w ++ ((fun d => (key, progress_updated (int32 d) (int32 total)))
              <$> running_sizes (downloaded_size th) chunks)
  /\ events a.1 = events s
  /\ active_downloads a.1
     = <[key := progress_thread th (written (downloaded_size th) chunks)]>
         (active_downloads s)
  /\ (forall d, files s !! file_path th = Some d ->
        files a.1 !! file_path th
        = Some (if bool_decide (written (downloaded_size th) chunks = downloaded_size th)
                then d else written (downloaded_size th) chunks)).
Proof.
  induction chunks as [|n chunks IH]; intros s th w Hk Hc Hr.
  - cbn. rewrite app_nil_r. split_and!; try done.
    + symmetry. apply insert_id. rewrite Hk. by destruct th; cbn in *; subst.
    + intros d Hd. by rewrite bool_decide_eq_true_2.
  - cbn [fmap list_fmap fold_left loop_exec fst snd].
    rewrite (chunk_turn key total n s th Hk Hc Hr).
    cbn [running_sizes]. unfold written. cbn [fold_left].
    case_bool_decide as Hn.
    + set (d1 := downloaded_size th + n).
      fold (written d1 chunks).
      set (s1 := put_thread _ _ _). cbn [post].
      assert (Hk1 : active_downloads s1 !! key = Some (progress_thread th d1)).
      { subst s1. cbn. apply lookup_insert_eq. }
      destruct (IH s1 (progress_thread th d1)
                  (w ++ [(key, progress_updated (int32 d1) (int32 total))]) Hk1 Hc Hr)
        as (H1 & H2 & H3 & H4).
      change (downloaded_size (progress_thread th d1)) with d1 in *.
      change (file_path (progress_thread th d1)) with (file_path th) in H4.
      fold (fmap (M:=list) (fun n => Turn key total (Chunk n)) chunks).
      rewrite H1, H2, H3.
      split_and!.
      * by rewrite <- app_assoc.
      * done.
      * subst s1. cbn. by rewrite insert_insert_eq.
      * intros d Hd.
        rewrite (H4 d1) by (subst s1; cbn; apply lookup_insert_eq).
        pose proof (written_ge d1 chunks).
        repeat case_bool_decide; try done; f_equal; subst d1; lia.
    + fold (written (downloaded_size th) chunks). cbn [post].
      fold (fmap (M:=list) (fun n => Turn key total (Chunk n)) chunks).
      by apply IH.
Qed.

Lemma int32_fmap_small lo hi (l : list Z) :
  - 2 ^ 31 <= lo -> hi < 2 ^ 31 ->
  Forall (fun d => lo < d <= hi) l -> int32 <$> l = l.
Proof.
  intros Hlo Hhi Hl. induction Hl as [|d l Hd Hl IH]; [done|].
  cbn [fmap list_fmap]. fold (int32 <$> l). rewrite IH. f_equal.
  apply int32_small. lia.
Qed.

(** X18. A thread that is not cancelled runs from [open] over its chunks to
    the end of the body: the file then holds the sum of the chunks; every
    chunk that is not empty gives one progress signal, which carries the
    running sum and the content length as C ints; the running sums
    increase strictly, and a body shorter than 2^31 bytes is reported with
    the running sums themselves; the next signal is [download_finished],
    and the file is kept. This holds with every signal delivered at once,
    and in the event loop the same signals wait in the same order. *)
Theorem uncancelled_run_writes_all key u it total chunks s :
  active_downloads s !! key = Some (mkThread u key it false 0 false) ->
  let s1 := run_chunks key total chunks (thread_open key s) in
  let s2 := thread_step key total EndOfStream s1 in
  files s1 !! key = Some (written 0 chunks)
  /\ events s1
     = events s ++ ((fun d => download_progress key (int32 d) (int32 total))
                    <$> running_sizes 0 chunks)
  /\ StronglySorted Z.lt (running_sizes 0 chunks)
  /\ (written 0 chunks < 2 ^ 31 ->
      int32 <$> running_sizes 0 chunks = running_sizes 0 chunks)
  /\ (- 2 ^ 31 <= total < 2 ^ 31 -> int32 total = total)
  /\ (exists evs, events s2 = events s1 ++ download_finished key key :: evs)
  /\ files s2 !! key = Some (written 0 chunks)
  /\ (let a := fold_left loop_exec
                 (((fun n => Turn key total (Chunk n)) <$> chunks)
                  ++ [Turn key total EndOfStream])
                 (thread_open key s, []) in
      a.2 = ((fun d => (key, progress_updated (int32 d) (int32 total)))
             <$> running_sizes 0 chunks)
            ++ [(key, thread_download_finished key)]
      /\ events a.1 = events s
      /\ files a.1 !! key = Some (written 0 chunks)).
Proof.
  intros Hk. cbn zeta.
  set (th := mkThread u key it false 0 false) in *.
  set (s0 := thread_open key s).
  set (s1 := run_chunks key total chunks s0).
  set (s2 := thread_step key total EndOfStream s1).
  assert (Hk0 : active_downloads s0 !! key = Some th).
  { subst s0. unfold thread_open. by rewrite Hk. }
  assert (Hf0 : files s0 !! key = Some 0).
  { subst s0. unfold thread_open. rewrite Hk. cbn. apply lookup_insert_eq. }
  assert (He0 : events s0 = events s).
  { subst s0. unfold thread_open. by rewrite Hk. }
  destruct (running_sizes_events key total chunks s0 th Hk0 eq_refl eq_refl)
    as (H1 & H2 & H3 & H4).
  fold s1 in H1, H2, H3, H4.
  change (downloaded_size th) with 0 in *. change (file_path th) with key in *.
  assert (Hfile : files s1 !! key = Some (written 0 chunks)).
  { rewrite (H3 0 Hf0). case_bool_decide as Hw; [by rewrite Hw|done]. }
  rewrite fold_left_app.
  destruct (running_sizes_posted key total chunks s0 th [] Hk0 eq_refl eq_refl)
    as (P1 & P2 & P3 & P4).
  change (downloaded_size th) with 0 in P1, P3, P4.
  change (file_path th) with key in P4.
  set (a1 := fold_left loop_exec _ (s0, [])) in *.
  cbn [fold_left loop_exec].
  assert (Hrt : run_turn key total EndOfStream a1.1
                = (put_thread key (return_thread (progress_thread th (written 0 chunks))
                                                 (written 0 chunks)) a1.1,
                   Some (thread_download_finished key))).
  { unfold run_turn. by rewrite P3, lookup_insert_eq. }
  rewrite Hrt. cbn [fst snd post].
  split_and!.
  - done.
  - by rewrite H1, He0.
  - apply running_sizes_sorted.
  - intros Hw. eapply (int32_fmap_small 0 (written 0 chunks)); [lia|done|].
    apply running_sizes_bounds.
  - apply int32_small.
  - subst s2. rewrite thread_step_unfold, H2, lookup_insert_eq. cbn.
    unfold _on_download_finished.
    set (s3 := emit (download_finished key key) _).
    destruct (start_next_events s3) as [evs Hevs].
    destruct (_ && _); cbn; rewrite Hevs; subst s3; cbn; rewrite <- !app_assoc; cbn;
      by eexists.
  - subst s2. rewrite thread_step_unfold, H2, lookup_insert_eq. cbn.
    rewrite (proj2 (on_finished_fields _ _ _)). done.
  - by rewrite P1.
  - cbn. by rewrite P2, He0.
  - cbn. rewrite (P4 0 Hf0). case_bool_decide as Hw; [by rewrite Hw|done].
Qed.

(** A body of 30 bytes in three chunks, one of them empty; a content
    length of 3000000000 is reported as -1294967296. *)
Lemma uncancelled_run_writes_all_witness :
  files (run_chunks "/dl/Mod_TestName_42.zip" 3000000000 [10; 0; 20]
           (thread_open "/dl/Mod_TestName_42.zip"
              (start_download scenario_item "/dl" (init 3)).2))
  !! "/dl/Mod_TestName_42.zip"%string = Some 30.
Proof.
  refine (proj1 (uncancelled_run_writes_all "/dl/Mod_TestName_42.zip"
            "https://steamworkshopdownloader.io/download/42" scenario_item 3000000000
            [10; 0; 20] (start_download scenario_item "/dl" (init 3)).2 _)).
  vm_compute. reflexivity.
Defined.

(** X19. The last transfer ends with an empty queue. When it completes,
    [download_finished] is followed by [all_downloads_finished]; when it
    fails, [download_error] is the last signal: a run that ends in a
    failure is never reported as finished. *)
Theorem all_downloads_finished_on_success_only key th total message s :
  active_downloads s = {[key := th]} -> download_queue s = [] ->
  is_cancelled th = false -> returned th = false ->
  events (thread_step key total EndOfStream s)
    = events s ++ [download_finished key (file_path th); all_downloads_finished]
  /\ events (thread_step key total (Failure message) s)
     = events s ++ [download_error key message]
  /\ active_downloads (thread_step key total (Failure message) s) = ∅
  /\ download_queue (thread_step key total (Failure message) s) = [].
Proof.
  intros Ha Hq Hc Hr.
  assert (Hk : active_downloads s !! key = Some th)
    by (rewrite Ha; apply lookup_singleton_eq).
  rewrite !thread_step_unfold. rewrite Hk, Hr, Hc.
  set (s1 := put_thread key (return_thread th (downloaded_size th)) s).
  assert (Hrem : forall e,
            _start_next_download (emit e (remove_active key s1))
            = emit e (remove_active key s1)
            /\ active_downloads (emit e (remove_active key s1)) = ∅
            /\ download_queue (emit e (remove_active key s1)) = []).
  { intros e. unfold _start_next_download. cbn. rewrite Hq. split_and!; try done.
    by rewrite Ha, delete_insert_eq, delete_singleton_eq. }
  split_and!.
  - unfold _on_download_finished.
    destruct (Hrem (download_finished key (file_path th))) as (-> & Hae & Hqe).
    rewrite Hae, Hqe, !bool_decide_eq_true_2 by done. cbn.
    by rewrite <- app_assoc.
  - unfold _on_download_error.
    by destruct (Hrem (download_error key message)) as (-> & _ & _).
  - unfold _on_download_error.
    by destruct (Hrem (download_error key message)) as (-> & Hae & _).
  - unfold _on_download_error.
    by destruct (Hrem (download_error key message)) as (-> & _ & Hqe).
Qed.

Lemma all_downloads_finished_on_success_only_witness :
  events (thread_step "/dl/Mod_TestName_42.zip" 30 (Failure "timeout")
            (start_download scenario_item "/dl" (init 3)).2)
  = events (start_download scenario_item "/dl" (init 3)).2
    ++ [download_error "/dl/Mod_TestName_42.zip" "timeout"].
Proof.
  refine (proj1 (proj2 (all_downloads_finished_on_success_only
            "/dl/Mod_TestName_42.zip"
            (mkThread "https://steamworkshopdownloader.io/download/42"
                      "/dl/Mod_TestName_42.zip" scenario_item false 0 false)
            30 "timeout" (start_download scenario_item "/dl" (init 3)).2 _ _ _ _)));
    vm_compute; reflexivity.
Defined.

(** ** The file name and the destination path *)

Lemma filter_none_cons p c s :
  PyStr.filter p (String c s) = ""%string <->
  p c = false /\ PyStr.filter p s = ""%string.
Proof.
  cbn. destruct (p c); [split; [done|by intros [? _]]|]. by split; [|intros [_ ?]].
Qed.

Lemma filter_keeps_only q t :
  PyStr.filter (fun c => negb (q c)) (PyStr.filter q t) = ""%string.
Proof.
  induction t as [|c t IH]; [done|]. cbn. destruct (q c) eqn:Hq; [|done].
  apply filter_none_cons. by rewrite Hq.
Qed.

Lemma rstrip_none p s :
  PyStr.filter p s = ""%string -> PyStr.filter p (PyStr.rstrip s) = ""%string.
Proof.
  induction s as [|c s IH]; [done|].
  intros [Hc Hs]%filter_none_cons. specialize (IH Hs). cbn [PyStr.rstrip].
  destruct (PyStr.rstrip s) as [|c' r].
  - destruct (PyStr.isspace c); [done|]. by apply filter_none_cons.
  - by apply filter_none_cons.
Qed.

Lemma take_none p n s :
  PyStr.filter p s = ""%string -> PyStr.filter p (PyStr.take n s) = ""%string.
Proof.
  revert n. induction s as [|c s IH]; intros n; [by destruct n|].
  intros [Hc Hs]%filter_none_cons. destruct n as [|n]; [done|].
  cbn [PyStr.take]. apply filter_none_cons. split; [done|by apply IH].
Qed.

Lemma take_length n s : (String.length (PyStr.take n s) <= n)%nat.
Proof.
  revert s. induction n as [|n IH]; intros s; [by destruct s|].
  destruct s as [|c s]; cbn; [lia|]. specialize (IH s). lia.
Qed.

(** After the spaces have become underscores, the characters that the
    title filter lets through are clean. *)
Lemma underscored_clean s :
  PyStr.filter (fun c => negb (title_char c)) s = ""%string ->
  PyStr.filter (fun c => negb (clean_char c)) (PyStr.replace " " "_" s) = ""%string.
Proof.
  induction s as [|c s IH]; [done|].
  intros [Hc Hs]%filter_none_cons. rewrite replace_char_cons.
  apply filter_none_cons. split; [|by apply IH].
  destruct (Ascii.eqb " " c) eqn:Hsp; [done|].
  apply negb_false_iff in Hc. apply negb_false_iff.
  unfold title_char in Hc. unfold clean_char.
  rewrite (Ascii.eqb_sym c " "), Hsp in Hc.
  by rewrite orb_false_r in Hc.
Qed.

(** The title part of a file name. *)
Lemma generate_filename_stem it :
  exists stem ext,
    _generate_filename it
    = (stem +:+ "_" +:+ default "unknown" (it !! "publishedfileid") +:+ ext)%string
    /\ (String.length stem <= 50)%nat
    /\ PyStr.filter (fun c => negb (clean_char c)) stem = ""%string.
Proof.
  unfold _generate_filename. eexists _, _. split; [reflexivity|]. split.
  - apply take_length.
  - apply take_none, underscored_clean, rstrip_none, filter_keeps_only.
Qed.

(** [rfind] on a character: the index of its last occurrence, or -1. *)
Lemma rfind_char a s :
  (PyStr.contains (String a "") s = true ->
   0 <= PyStr.rfind (String a "") s
   /\ exists rest,
        PyStr.drop (Z.to_nat (PyStr.rfind (String a "") s)) s = String a rest
        /\ PyStr.contains (String a "") rest = false)
  /\ (PyStr.contains (String a "") s = false -> PyStr.rfind (String a "") s = -1).
Proof.
  induction s as [|c s [IHt IHf]]; [by split|].
  rewrite contains_char_cons. cbn [PyStr.rfind]. rewrite prefix_char.
  destruct (PyStr.contains (String a "") s) eqn:Hs.
  - destruct (IHt eq_refl) as (Hi & rest & Hd & Hr).
    rewrite (proj2 (Z.leb_le 0 _) Hi). rewrite orb_true_r. split; [|done].
    intros _. split; [lia|]. exists rest. split; [|done].
    replace (Z.to_nat (PyStr.rfind (String a "") s + 1))
      with (S (Z.to_nat (PyStr.rfind (String a "") s))) by lia.
    done.
  - rewrite (IHf eq_refl). cbn [Z.leb Z.compare]. rewrite orb_false_r.
    destruct (Ascii.eqb a c) eqn:Hac.
    + apply Ascii.eqb_eq in Hac as <-. split; [|done].
      intros _. split; [lia|]. by exists s.
    + by split.
Qed.

Lemma string_take_drop n s : (PyStr.take n s +:+ PyStr.drop n s)%string = s.
Proof.
  revert s. induction n as [|n IH]; intros s; [by destruct s|].
  destruct s as [|c s]; [done|]. cbn [PyStr.take PyStr.drop].
  change (String c ?x +:+ ?y) with (String c (x +:+ y)). by rewrite IH.
Qed.

(** X20. Every file name is a title part, an underscore, the id and an
    extension. The title part is the title without the characters that are
    not alphanumeric, a space, a dash or an underscore, without the spaces
    at its end, with an underscore for every space, cut at 50 characters:
    it has at most 50 characters, each alphanumeric, a dash or an
    underscore. The extension is the text of the [filename] field from its
    last dot on, when the field is there and has a dot, and [.zip]
    otherwise. *)
Theorem generate_filename_shape it :
  exists stem ext,
    _generate_filename it
    = (stem +:+ "_" +:+ default "unknown" (it !! "publishedfileid") +:+ ext)%string
    /\ stem = PyStr.take 50
                (PyStr.replace " " "_"
                   (PyStr.rstrip
                      (PyStr.filter title_char (default "workshop_item" (it !! "title")))))
    /\ (String.length stem <= 50)%nat
    /\ PyStr.filter (fun c => negb (clean_char c)) stem = ""%string
    /\ match it !! "filename" with
       | Some f =>
           if PyStr.contains "." f
           then exists before rest,
                  f = (before +:+ String "." rest)%string
                  /\ PyStr.contains "." rest = false
                  /\ ext = String "." rest
           else ext = ".zip"%string
       | None => ext = ".zip"%string
       end.
Proof.
  unfold _generate_filename. eexists _, _. split; [reflexivity|]. split_and!.
  - reflexivity.
  - apply take_length.
  - apply take_none, underscored_clean, rstrip_none, filter_keeps_only.
  - destruct (it !! "filename") as [f|]; cbn [default from_option]; [|done].
    unfold id. destruct (PyStr.contains "." f) eqn:Hdot.
    + assert (Hf : DownloadManager.truthy f = true) by (by destruct f).
      rewrite Hf. cbn [andb].
      destruct (proj1 (rfind_char "." f) Hdot) as (Hi & rest & Hd & Hr).
      exists (PyStr.take (Z.to_nat (PyStr.rfind "." f)) f), rest. split_and!.
      * by rewrite <- Hd, string_take_drop.
      * done.
      * unfold PyStr.slice_from. by rewrite (proj2 (Z.leb_le 0 _) Hi).
    + by rewrite andb_false_r.
Qed.

(** X21. The destination is the directory followed by the file name: with
    nothing between them when the directory is empty or ends in a slash,
    and with a slash between them otherwise. The file name never starts
    with a slash, so it cannot replace the directory. *)
Theorem dest_in_directory it dir :
  String.prefix "/" (_generate_filename it) = false
  /\ ((dir = ""%string \/ exists d, dir = (d +:+ "/")%string) ->
      dest (it, dir) = (dir +:+ _generate_filename it)%string)
  /\ (dir <> ""%string /\ (forall d, dir <> (d +:+ "/")%string) ->
      dest (it, dir) = (dir +:+ "/" +:+ _generate_filename it)%string).
Proof.
  assert (Hrel : String.prefix "/" (_generate_filename it) = false).
  { destruct (generate_filename_stem it) as (stem & ext & -> & _ & Hclean).
    destruct stem as [|c stem].
    - reflexivity.
    - change (String c stem +:+ ?x) with (String c (stem +:+ x)).
      rewrite prefix_char. apply filter_none_cons in Hclean as [Hc _].
      destruct (Ascii.eqb "/" c) eqn:Hs; [|done].
      apply Ascii.eqb_eq in Hs as <-. done. }
  unfold dest, path_join. cbn [fst snd]. rewrite Hrel. split_and!.
  - done.
  - intros [->|[d ->]]; [done|].
    rewrite string_length_app. cbn [String.length].
    replace (String.length d + 1 - 1)%nat with (String.length d) by lia.
    rewrite drop_length_app, String.eqb_refl. by rewrite orb_true_r.
  - intros [Hne Hslash].
    destruct (String.length dir =? 0)%nat eqn:Hlen.
    { apply Nat.eqb_eq in Hlen. by destruct dir. }
    destruct (String.eqb _ "/") eqn:Hend; [|done].
    apply String.eqb_eq in Hend. exfalso.
    apply (Hslash (PyStr.take (String.length dir - 1) dir)).
    by rewrite <- Hend, string_take_drop.
Qed.

Example dest_separator :
  dest (scenario_item, "/dl"%string) = "/dl/Mod_TestName_42.zip"%string
  /\ dest (scenario_item, "/dl/"%string) = "/dl/Mod_TestName_42.zip"%string
  /\ dest (scenario_item, ""%string) = "Mod_TestName_42.zip"%string.
Proof. repeat split. Qed.

(** ** The catalog *)

Example str_of_ints :
  SteamAPI.str 730 = "730"%string /\ SteamAPI.str 0 = "0"%string
  /\ SteamAPI.str (-5) = "-5"%string.
Proof. repeat split. Qed.

Example popular_games_slices :
  length (SteamAPI.get_popular_games 200) = 50%nat
  /\ length (SteamAPI.get_popular_games 10) = 10%nat
  /\ length (SteamAPI.get_popular_games (-1)) = 49%nat
  /\ SteamAPI.get_popular_games (-60) = [].
Proof. repeat split. Qed.

Lemma search_loop_first ql limit games :
  limit <= 1 ->
  SteamAPI.search_loop ql limit games []
  = take 1 (List.filter (SteamAPI.name_matches ql) games).
Proof.
  intros Hl. induction games as [|g games IH]; [done|].
  cbn [SteamAPI.search_loop List.filter].
  destruct (SteamAPI.name_matches ql g); [|done].
  cbn. rewrite bool_decide_eq_true_2 by lia. done.
Qed.

(** X22. [search_games] returns the matching games in catalog order up to the
    limit, and one game for a limit below one: the limit is tested after a
    game has been added. *)
Theorem search_games_any_limit query limit :
  SteamAPI.search_games query limit
  = take (Z.to_nat (Z.max 1 limit))
      (List.filter (SteamAPI.name_matches (PyStr.lower query)) SteamAPI.popular_games).
Proof.
  destruct (Z.le_gt_cases 1 limit) as [Hl|Hl].
  - rewrite search_games_take by done. f_equal. lia.
  - unfold SteamAPI.search_games. rewrite search_loop_first by lia.
    f_equal. lia.
Qed.

(** X23. The empty query matches every game: a search for it with a limit of at
    least one is the head of the catalog that [get_popular_games]
    returns. *)
Theorem search_empty_query limit :
  1 <= limit ->
  SteamAPI.search_games "" limit = SteamAPI.get_popular_games limit.
Proof.
  intros Hl. rewrite search_games_take by done.
  assert (Hall : forall l, List.filter (SteamAPI.name_matches "") l = l).
  { induction l as [|g l IH]; [done|]. cbn [List.filter].
    replace (SteamAPI.name_matches "" g) with true; [by rewrite IH|].
    unfold SteamAPI.name_matches. by destruct (PyStr.lower (SteamAPI.name g)). }
  change (PyStr.lower "") with ""%string. rewrite Hall.
  unfold SteamAPI.get_popular_games, SteamAPI.slice_to.
  by rewrite (proj2 (Z.leb_le 0 limit)) by lia.
Qed.

Lemma search_empty_query_witness :
  SteamAPI.search_games "" 3 = SteamAPI.get_popular_games 3.
Proof. apply (search_empty_query 3). lia. Defined.

(** X24. The ids of the catalog are distinct: [get_app_info] on the id of a
    game of the catalog gives the name of that game, and on any other id
    the name [Game <id>]. *)
Theorem get_app_info_of_catalog app_id :
  (forall g, g ∈ SteamAPI.popular_games -> SteamAPI.appid g = app_id ->
     SteamAPI.get_app_info app_id = SteamAPI.mkInfo app_id (SteamAPI.name g) true true)
  /\ ((forall g, g ∈ SteamAPI.popular_games -> SteamAPI.appid g <> app_id) ->
      SteamAPI.get_app_info app_id
      = SteamAPI.mkInfo app_id ("Game " +:+ SteamAPI.str app_id) true true).
Proof.
  assert (Hfind : forall games,
            match SteamAPI.find_app app_id games with
            | Some g => g ∈ games /\ SteamAPI.appid g = app_id
            | None => forall g, g ∈ games -> SteamAPI.appid g <> app_id
            end).
  { induction games as [|g games IH]; cbn.
    - intros g Hg. by apply elem_of_nil in Hg.
    - case_bool_decide as Hid; [split; [by left|done]|].
      destruct (SteamAPI.find_app app_id games) as [g'|].
      + destruct IH. split; [by right|done].
      + intros g0 [->|Hg]%elem_of_cons; [done|by apply IH]. }
  assert (Hnodup : NoDup (SteamAPI.appid <$> SteamAPI.popular_games)).
  { apply (bool_decide_unpack _). vm_compute. exact I. }
  unfold SteamAPI.get_app_info. specialize (Hfind SteamAPI.popular_games). split.
  - intros g Hg Hid.
    destruct (SteamAPI.find_app app_id SteamAPI.popular_games) as [g'|].
    + destruct Hfind as [Hg' Hid']. f_equal.
      assert (g = g'); [|by subst].
      apply list_elem_of_lookup in Hg as [i Hi], Hg' as [j Hj].
      assert (i = j).
      { eapply NoDup_lookup; [exact Hnodup| |].
        - rewrite list_lookup_fmap, Hi. reflexivity.
        - rewrite list_lookup_fmap, Hj. cbn. by rewrite Hid, Hid'. }
      subst j. congruence.
    + by destruct (Hfind g Hg).
  - intros Hnone.
    destruct (SteamAPI.find_app app_id SteamAPI.popular_games) as [g'|]; [|done].
    destruct Hfind as [Hg' Hid']. by destruct (Hnone g' Hg').
Qed.

(** X25. The two resolvers of a download URL agree on every item that the
    manager accepts; for an item that the manager rejects,
    [download_workshop_item] still makes up a URL, from the text [None] or
    from an empty id. *)
Theorem download_url_resolvers_agree it :
  match _get_download_url it with
  | Some u => SteamAPI.download_workshop_item it = u
  | None =>
      SteamAPI.download_workshop_item it
        = "https://steamworkshopdownloader.io/download/None"%string
      \/ SteamAPI.download_workshop_item it
         = "https://steamworkshopdownloader.io/download/"%string
  end.
Proof.
  unfold _get_download_url, SteamAPI.download_workshop_item, DownloadManager.truthy.
  destruct (it !! "file_url") as [u|]; cbn.
  - destruct (String.length u =? 0)%nat eqn:Hu; cbn; [|done].
    destruct (it !! "publishedfileid") as [i|]; cbn; [|by left].
    destruct (String.length i =? 0)%nat eqn:Hi; cbn; [|done].
    right. apply Nat.eqb_eq in Hi. by destruct i.
  - destruct (it !! "publishedfileid") as [i|]; cbn; [|by left].
    destruct (String.length i =? 0)%nat eqn:Hi; cbn; [|done].
    right. apply Nat.eqb_eq in Hi. by destruct i.
Qed.

(** ** The loaders *)

Section Loaders.

Implicit Types (c : Cache.t (list SteamAPI.game)).

(** A [get] leaves the entries of the other keys alone. *)
Lemma get_other_keys {V : Type} now k k' (c : Cache.t V) :
  k <> k' ->
  Cache._memory_cache (Cache.get now k c).2 !! k' = Cache._memory_cache c !! k'.
Proof.
  intros Hne. unfold Cache.get.
  destruct (Cache._memory_cache c !! k) as [[[d ts] ttl]|]; [|done].
  destruct (Cache.expired now (d, ts, ttl)); [|done].
  cbn. by rewrite lookup_delete_ne.
Qed.

(** X26. The catalog has fifty games, so the test [len(all_games) > 50] of
    [_load_additional_games] fails: a run of the game loader emits
    [games_loaded] at most once and never writes the key
    [all_games_list]. *)
Theorem game_loader_emits_once cancelled1 cancelled2 cancelled3 cancelled4
    cancelled5 now_get now_set now_set2 c :
  let tr := GameLoaderThread.run cancelled1 cancelled2 cancelled3 cancelled4
              cancelled5 now_get now_set now_set2 c in
  (length (GameLoaderThread.loaded (GameLoaderThread.emitted tr)) <= 1)%nat
  /\ Cache._memory_cache (GameLoaderThread.cache tr) !! "all_games_list"
     = Cache._memory_cache c !! "all_games_list".
Proof.
  intros tr. subst tr. unfold GameLoaderThread.run.
  pose proof (get_other_keys now_get "popular_games_list" "all_games_list" c) as Hget.
  destruct (Cache.get now_get "popular_games_list" c) as [cached c1].
  cbn [snd] in Hget. specialize (Hget ltac:(done)).
  destruct (GameLoaderThread.truthy cached && negb cancelled1).
  - destruct cached; cbn; split; try done; lia.
  - destruct cancelled2; cbn [negb]; [cbn; split; [lia|done]|].
    destruct cancelled3; cbn [negb]; [cbn; split; [lia|done]|].
    unfold GameLoaderThread._load_additional_games.
    assert (Hset : Cache._memory_cache
              (Cache.set now_set "popular_games_list"
                 (Cache.PyVal (SteamAPI.get_popular_games 50)) (Some 3600) c1)
              !! "all_games_list" = Cache._memory_cache c !! "all_games_list").
    { rewrite set_lookup_ne by done. done. }
    assert (Hlen : bool_decide
              (Z.of_nat (length (SteamAPI.get_popular_games 200)) > 50) = false)
      by (by vm_compute).
    rewrite Hlen, andb_false_r.
    destruct cancelled4; cbn; split; try done; lia.
Qed.

(** X27. A run that finds nothing in the cache fetches the games and caches
    them; a second run within the hour emits the same list from the cache
    and fetches nothing. *)
Theorem game_loader_miss_then_hit now_get now_set now_set2 now_get' now_set'
    now_set2' c :
  GameLoaderThread.truthy (Cache.get now_get "popular_games_list" c).1 = false ->
  now_get' - now_set <= 3600 ->
  let tr := GameLoaderThread.run false false false false false
              now_get now_set now_set2 c in
  let tr' := GameLoaderThread.run false false false false false
               now_get' now_set' now_set2' (GameLoaderThread.cache tr) in
  GameLoaderThread.loaded (GameLoaderThread.emitted tr) = [SteamAPI.popular_games]
  /\ GameLoaderThread.fetches tr = [50; 200]
  /\ GameLoaderThread.loaded (GameLoaderThread.emitted tr') = [SteamAPI.popular_games]
  /\ GameLoaderThread.fetches tr' = [].
Proof.
  intros Hmiss Hlive. cbn zeta.
  assert (Htr : GameLoaderThread.run false false false false false
                  now_get now_set now_set2 c
                = GameLoaderThread.mkTrace
                    [GameLoaderThread.loading_progress "Загрузка популярных игр...";
                     GameLoaderThread.loading_progress "Получение данных из Steam API...";
                     GameLoaderThread.loading_progress "Загрузка завершена";
                     GameLoaderThread.games_loaded SteamAPI.popular_games]
                    [50; 200]
                    (Cache.set now_set "popular_games_list"
                       (Cache.PyVal SteamAPI.popular_games) (Some 3600)
                       (Cache.get now_get "popular_games_list" c).2)).
  { unfold GameLoaderThread.run.
    destruct (Cache.get now_get "popular_games_list" c) as [cached c1].
    cbn [fst] in Hmiss. rewrite Hmiss. cbn [andb negb snd].
    unfold GameLoaderThread._load_additional_games.
    assert (Hlen : bool_decide
              (Z.of_nat (length (SteamAPI.get_popular_games 200)) > 50) = false)
      by (by vm_compute).
    rewrite Hlen. reflexivity. }
  rewrite Htr. cbn [GameLoaderThread.emitted GameLoaderThread.fetches GameLoaderThread.cache].
  split; [done|]. split; [done|].
  unfold GameLoaderThread.run.
  rewrite (get_live now_get' "popular_games_list" _
             (Cache.PyVal SteamAPI.popular_games) now_set 3600);
    [|apply lookup_insert_eq|done].
  done.
Qed.

Lemma game_loader_miss_then_hit_witness :
  GameLoaderThread.fetches
    (GameLoaderThread.run false false false false false 10 10 10
       (GameLoaderThread.cache
          (GameLoaderThread.run false false false false false 0 0 0 (Cache.empty 3600))))
  = [].
Proof.
  refine (proj2 (proj2 (proj2 (game_loader_miss_then_hit 0 0 0 10 10 10
                                  (Cache.empty 3600) _ _)))).
  - reflexivity.
  - lia.
Defined.

(** X28. A search that is cancelled before it reads the cache emits nothing and
    fetches nothing, unless the query is too short: then the empty list is
    emitted all the same. *)
Theorem search_cancelled_is_silent query cancelled3 now_get now_set c :
  let tr := SearchThread.run query true true cancelled3 now_get now_set c in
  if bool_decide (PyStr.len (PyStr.strip query) < 2)
  then tr = SearchThread.mkTrace [SearchThread.search_results []] [] c
  else SearchThread.emitted tr = [] /\ SearchThread.fetches tr = [].
Proof.
  intros tr. subst tr. unfold SearchThread.run.
  case_bool_decide; [done|].
  destruct (Cache.get now_get _ c) as [cached c1].
  rewrite andb_false_r. done.
Qed.

(** X29. A search result is served from the cache for fifteen minutes when it
    is not empty; an empty result is cached too but never served, so the
    same query is fetched again. *)
Theorem search_cache_serves_nonempty query now_get now_set now_get' now_set' c :
  2 <= PyStr.len (PyStr.strip query) ->
  SearchThread.truthy
    (Cache.get now_get ("search_games_" +:+ PyStr.lower query) c).1 = false ->
  now_get' - now_set <= 900 ->
  let tr := SearchThread.run query false false false now_get now_set c in
  let tr' := SearchThread.run query false false false now_get' now_set'
               (SearchThread.cache tr) in
  SearchThread.emitted tr'
    = [SearchThread.search_results (SteamAPI.search_games query 20)]
  /\ SearchThread.fetches tr'
     = match SteamAPI.search_games query 20 with
       | [] => [(query, 20)]
       | _ :: _ => []
       end.
Proof.
  intros Hlen Hmiss Hlive. cbn zeta.
  set (key := ("search_games_" +:+ PyStr.lower query)%string) in *.
  assert (Htr : SearchThread.cache
                  (SearchThread.run query false false false now_get now_set c)
                = Cache.set now_set key (Cache.PyVal (SteamAPI.search_games query 20))
                    (Some 900) (Cache.get now_get key c).2).
  { unfold SearchThread.run. rewrite bool_decide_eq_false_2 by lia. fold key.
    destruct (Cache.get now_get key c) as [cached c1].
    cbn [fst] in Hmiss. rewrite Hmiss. done. }
  rewrite Htr. unfold SearchThread.run at 1 2.
  rewrite bool_decide_eq_false_2 by lia. fold key.
  rewrite (get_live now_get' key _ (Cache.PyVal (SteamAPI.search_games query 20))
             now_set 900); [|apply lookup_insert_eq|done].
  destruct (SteamAPI.search_games query 20) as [|g gs]; done.
Qed.

Lemma search_cache_serves_nonempty_witness :
  SearchThread.fetches
    (SearchThread.run "zz" false false false 10 10
       (SearchThread.cache
          (SearchThread.run "zz" false false false 0 0 (Cache.empty 3600))))
  = [("zz"%string, 20)].
Proof.
  refine (proj2 (search_cache_serves_nonempty "zz" 0 0 10 10 (Cache.empty 3600) _ _ _)).
  - vm_compute. discriminate.
  - reflexivity.
  - lia.
Defined.

End Loaders.

Lemma batch_loop_all fuel batch_size l cancelled read :
  (1 <= batch_size)%nat -> (length l <= fuel)%nat ->
  (forall i, cancelled i = false) ->
  concat (LazyGameLoaderThread.batches
            (LazyGameLoaderThread.batch_loop fuel batch_size l cancelled read)) = l
  /\ Forall (fun batch => (1 <= length batch <= batch_size)%nat)
       (LazyGameLoaderThread.batches
          (LazyGameLoaderThread.batch_loop fuel batch_size l cancelled read)).
Proof.
  intros Hb Hfuel Hc. revert l read Hfuel.
  induction fuel as [|fuel IH]; intros l read Hfuel.
  - destruct l; [by split|cbn in Hfuel; lia].
  - cbn [LazyGameLoaderThread.batch_loop]. destruct l as [|g l]; [by split|].
    rewrite Hc.
    destruct (IH (drop batch_size (g :: l)) (S read)) as [Hcat Hall].
    { rewrite length_drop. cbn in *. lia. }
    change (LazyGameLoaderThread.batches (?e :: ?evs))
      with (take batch_size (g :: l) :: LazyGameLoaderThread.batches evs).
    split.
    + cbn [concat]. rewrite Hcat. apply take_drop.
    + constructor; [|done]. rewrite length_take. cbn. lia.
Qed.

(** X30. The lazy loader with a start index that is not negative and a batch
    size of at least one, when it is not cancelled: the batches it emits
    are not empty, none is longer than the batch size, and put together
    they are the catalog from the start index on. With the start index of
    50 that the constructor sets there is nothing to emit. *)
Theorem lazy_loader_batches start_index batch_size cancelled :
  0 <= start_index -> 1 <= batch_size -> (forall i, cancelled i = false) ->
  let bs := LazyGameLoaderThread.batches
              (LazyGameLoaderThread.run start_index batch_size cancelled) in
  concat bs = drop (Z.to_nat start_index) SteamAPI.popular_games
  /\ Forall (fun batch => (1 <= length batch <= Z.to_nat batch_size)%nat) bs
  /\ (50 <= start_index -> bs = []).
Proof.
  intros Hs Hb Hc bs. subst bs. unfold LazyGameLoaderThread.run.
  rewrite !Hc. cbn [negb andb].
  change (SteamAPI.get_popular_games 200) with SteamAPI.popular_games.
  case_bool_decide as Hlen.
  - unfold SteamAPI.slice_from. rewrite (proj2 (Z.leb_le 0 start_index)) by done.
    rewrite (bool_decide_eq_false_2 (batch_size = 0)) by lia.
    rewrite (bool_decide_eq_false_2 (batch_size < 0)) by lia.
    unfold LazyGameLoaderThread.batches. rewrite !omap_app. cbn [omap app].
    rewrite app_nil_r.
    destruct (batch_loop_all
                (length (drop (Z.to_nat start_index) SteamAPI.popular_games))
                (Z.to_nat batch_size)
                (drop (Z.to_nat start_index) SteamAPI.popular_games) cancelled 2)
      as [Hcat Hall]; [lia|done|done|].
    split_and!; try done.
    all: intros Hge; cbn in Hlen; lia.
  - cbn. rewrite drop_ge; [by split_and!|]. cbn in *. lia.
Qed.

Lemma lazy_loader_batches_witness :
  concat (LazyGameLoaderThread.batches
            (LazyGameLoaderThread.run 45 2 (fun _ => false)))
  = drop 45 SteamAPI.popular_games.
Proof.
  refine (proj1 (lazy_loader_batches 45 2 (fun _ => false) _ _ _)); [lia|lia|done].
Defined.
